(** * Sketchy: the drawing canvas of [src/components/sketch.tsx]

    A shallow embedding of the React component [SketchApp]: its state
    (the [useState] cells), its event handlers ([startDrawing], [draw],
    [stopDrawing], [clearCanvas], [undo], [redo], [adjustBrushSize],
    [downloadImage]) and its rendering code ([drawPath], [redrawCanvas]),
    over a small model of the HTML canvas 2D context.

    Conventions.
    - JS arrays are lists in array order: the top of [undoStack] and of
      [redoStack] is the LAST element ([arr[arr.length - 1]] is [last],
      [arr.slice(0, -1)] is [removelast], [[...prev, x]] is [prev ++ [x]]).
    - Coordinates and the brush size are JS numbers; no handler computes
      with them beyond a subtraction and a clamp, and they are modelled
      as [Z].
    - A handler runs against the state of the render that created it:
      the values it closes over ([paths], [undoStack], ...) are read from
      the state [s] it is applied to, and its [setX] calls are applied in
      order, a functional update [setX (fun prev => ...)] receiving the
      value left by the earlier calls. *)

From Stdlib Require Import ZArith List Bool Lia.
From Stdlib Require String.
Import ListNotations String.StringSyntax.

Abbreviation string := String.string.

Local Open Scope string_scope.
Local Open Scope Z_scope.
Local Open Scope list_scope.

(** Left-to-right application, to thread a state through a handler's
    calls in the order the source makes them. *)
Notation "s |> f" := (f s) (at level 45, left associativity, only parsing).

(** ** The canvas 2D context

    The browser's canvas is not code of the repository.  It is modelled
    as far as the component uses it: the drawing state of the context, the
    current path, and the bitmap as the list of paint operations applied
    to it, oldest first.  [pixelAt] gives the pixels that list denotes.
    Rasterisation (which pixels a stroked path covers) is the browser's
    and stays abstract, as the class [Rasterizer]; coverage is all or
    nothing (no anti-aliasing) and every colour the component uses is an
    opaque [#rrggbb] string, so a pixel is either transparent or holds one
    opaque colour. *)
Module Canvas2D.

Inductive CompositeOperation := source_over | destination_out.
Inductive LineCap := cap_butt | cap_round | cap_square.
Inductive LineJoin := join_miter | join_round | join_bevel.

(** [None] is transparent black, the content of a fresh or cleared canvas. *)
Definition Pixel := option string.

Definition Subpath := list (Z * Z).

#[warnings="-register-all"] Inductive PaintOp :=
| ClearRect (x y w h : Z)
| FillRect (x y w h : Z) (style : string) (gco : CompositeOperation)
| Stroke (subpaths : list Subpath) (style : string) (lw : Z)
         (cap : LineCap) (join : LineJoin) (gco : CompositeOperation)
| DrawImage (sw sh : Z) (image : list PaintOp) (dx dy : Z)
            (gco : CompositeOperation).

Class Rasterizer :=
  strokeCovers : list Subpath -> Z -> LineCap -> LineJoin -> Z * Z -> bool.

Record Context2D := mkContext2D {
  strokeStyle : string;
  fillStyle : string;
  lineWidth : Z;
  lineCap : LineCap;
  lineJoin : LineJoin;
  globalCompositeOperation : CompositeOperation;
  path : list Subpath;
  bitmap : list PaintOp
}.

(** [rect_left] and [rect_top] are what [getBoundingClientRect] reports. *)
Record Canvas := mkCanvas {
  width : Z;
  height : Z;
  rect_left : Z;
  rect_top : Z;
  context : Context2D
}.

Definition freshContext : Context2D :=
  {| strokeStyle := "#000000"; fillStyle := "#000000"; lineWidth := 1;
     lineCap := cap_butt; lineJoin := join_miter;
     globalCompositeOperation := source_over; path := []; bitmap := [] |}.

(** [document.createElement("canvas")] followed by the assignments of
    [width] and [height]: a transparent bitmap of that size, detached from
    the page. *)
Definition createCanvas (w h : Z) : Canvas :=
  {| width := w; height := h; rect_left := 0; rect_top := 0;
     context := freshContext |}.

Definition withContext (cv : Canvas) (ctx : Context2D) : Canvas :=
  {| width := width cv; height := height cv; rect_left := rect_left cv;
     rect_top := rect_top cv; context := ctx |}.

(** *** Drawing state *)

Definition set_strokeStyle (v : string) (c : Context2D) : Context2D :=
  mkContext2D v (fillStyle c) (lineWidth c) (lineCap c) (lineJoin c)
              (globalCompositeOperation c) (path c) (bitmap c).

Definition set_fillStyle (v : string) (c : Context2D) : Context2D :=
  mkContext2D (strokeStyle c) v (lineWidth c) (lineCap c) (lineJoin c)
              (globalCompositeOperation c) (path c) (bitmap c).

(** Assigning zero or a negative number to [lineWidth] is ignored. *)
Definition set_lineWidth (v : Z) (c : Context2D) : Context2D :=
  if 0 <? v
  then mkContext2D (strokeStyle c) (fillStyle c) v (lineCap c) (lineJoin c)
                   (globalCompositeOperation c) (path c) (bitmap c)
  else c.

Definition set_lineCap (v : LineCap) (c : Context2D) : Context2D :=
  mkContext2D (strokeStyle c) (fillStyle c) (lineWidth c) v (lineJoin c)
              (globalCompositeOperation c) (path c) (bitmap c).

Definition set_lineJoin (v : LineJoin) (c : Context2D) : Context2D :=
  mkContext2D (strokeStyle c) (fillStyle c) (lineWidth c) (lineCap c) v
              (globalCompositeOperation c) (path c) (bitmap c).

Definition set_globalCompositeOperation (v : CompositeOperation)
    (c : Context2D) : Context2D :=
  mkContext2D (strokeStyle c) (fillStyle c) (lineWidth c) (lineCap c)
              (lineJoin c) v (path c) (bitmap c).

Definition set_path (v : list Subpath) (c : Context2D) : Context2D :=
  mkContext2D (strokeStyle c) (fillStyle c) (lineWidth c) (lineCap c)
              (lineJoin c) (globalCompositeOperation c) v (bitmap c).

Definition addOp (op : PaintOp) (c : Context2D) : Context2D :=
  mkContext2D (strokeStyle c) (fillStyle c) (lineWidth c) (lineCap c)
              (lineJoin c) (globalCompositeOperation c) (path c)
              (bitmap c ++ [op]).

(** *** Paths *)

Definition beginPath (c : Context2D) : Context2D := set_path [] c.

Definition moveTo (x y : Z) (c : Context2D) : Context2D :=
  set_path (path c ++ [[(x, y)]]) c.

(** With no subpath yet, [lineTo] behaves as [moveTo]. *)
Definition lineTo (x y : Z) (c : Context2D) : Context2D :=
  match path c with
  | [] => moveTo x y c
  | _ => set_path (removelast (path c) ++ [last (path c) [] ++ [(x, y)]]) c
  end.

(** *** Painting *)

Definition stroke (c : Context2D) : Context2D :=
  addOp (Stroke (path c) (strokeStyle c) (lineWidth c) (lineCap c)
                (lineJoin c) (globalCompositeOperation c)) c.

(** [clearRect] ignores the compositing mode. *)
Definition clearRect (x y w h : Z) (c : Context2D) : Context2D :=
  addOp (ClearRect x y w h) c.

Definition fillRect (x y w h : Z) (c : Context2D) : Context2D :=
  addOp (FillRect x y w h (fillStyle c) (globalCompositeOperation c)) c.

(** [drawImage(image, dx, dy)] with a canvas as the image: its pixels as
    they are at the time of the call. *)
Definition drawImage (image : Canvas) (dx dy : Z) (c : Context2D) : Context2D :=
  addOp (DrawImage (width image) (height image) (bitmap (context image))
                   dx dy (globalCompositeOperation c)) c.

(** *** The pixels a bitmap holds *)

Definition inRect (x y w h : Z) (px : Z * Z) : bool :=
  (x <=? fst px) && (fst px <? x + w) && (y <=? snd px) && (snd px <? y + h).

(** Porter-Duff compositing of a source pixel onto a destination pixel,
    both opaque or transparent: [source_over] paints the source where
    there is one, [destination_out] removes the destination there. *)
Definition composite (gco : CompositeOperation) (src dst : Pixel) : Pixel :=
  match src with
  | None => dst
  | Some c => match gco with
              | source_over => Some c
              | destination_out => None
              end
  end.

Section Pixels.
Context {R : Rasterizer}.

Fixpoint paint (op : PaintOp) (px : Z * Z) (dst : Pixel) : Pixel :=
  match op with
  | ClearRect x y w h => if inRect x y w h px then None else dst
  | FillRect x y w h style gco =>
      composite gco (if inRect x y w h px then Some style else None) dst
  | Stroke sp style lw cap join gco =>
      composite gco (if strokeCovers sp lw cap join px then Some style else None)
                dst
  | DrawImage sw sh image dx dy gco =>
      let q := (fst px - dx, snd px - dy) in
      composite gco
        (if inRect 0 0 sw sh q
         then fold_left (fun acc o => paint o q acc) image None
         else None)
        dst
  end.

Definition renderOps (ops : list PaintOp) (px : Z * Z) : Pixel :=
  fold_left (fun acc o => paint o px acc) ops None.

(** The pixel of a canvas; there is none outside its bitmap. *)
Definition pixelAt (cv : Canvas) (px : Z * Z) : Pixel :=
  if inRect 0 0 (width cv) (height cv) px
  then renderOps (bitmap (context cv)) px
  else None.

End Pixels.

End Canvas2D.

Import Canvas2D.

(** ** The component's data *)

Record Point := mkPoint { x : Z; y : Z }.

Inductive Tool := pen | eraser.

Record DrawingPath := mkDrawingPath {
  points : list Point;
  color : string;
  width : Z;
  tool : Tool
}.

(** The [useState] cells of [SketchApp]. *)
Record State := mkState {
  isDrawing : bool;
  currentPath : list Point;
  paths : list DrawingPath;
  undoStack : list (list DrawingPath);
  redoStack : list (list DrawingPath);
  currentColor : string;
  brushSize : Z;
  currentTool : Tool
}.

Definition initialState : State :=
  {| isDrawing := false; currentPath := []; paths := [];
     undoStack := []; redoStack := [];
     currentColor := "#000000"; brushSize := 3; currentTool := pen |}.

Definition colors : list string :=
  [ "#000000"; "#FF0000"; "#00FF00"; "#0000FF"; "#FFFF00";
    "#FF00FF"; "#00FFFF"; "#FFA500"; "#800080"; "#FFC0CB" ].

(** The state setters; each takes the updater, [fun _ => v] for a plain
    [setX(v)]. *)
Definition setIsDrawing (f : bool -> bool) (s : State) : State :=
  mkState (f (isDrawing s)) (currentPath s) (paths s) (undoStack s)
          (redoStack s) (currentColor s) (brushSize s) (currentTool s).

Definition setCurrentPath (f : list Point -> list Point) (s : State) : State :=
  mkState (isDrawing s) (f (currentPath s)) (paths s) (undoStack s)
          (redoStack s) (currentColor s) (brushSize s) (currentTool s).

Definition setPaths (f : list DrawingPath -> list DrawingPath) (s : State)
    : State :=
  mkState (isDrawing s) (currentPath s) (f (paths s)) (undoStack s)
          (redoStack s) (currentColor s) (brushSize s) (currentTool s).

Definition setUndoStack
    (f : list (list DrawingPath) -> list (list DrawingPath)) (s : State)
    : State :=
  mkState (isDrawing s) (currentPath s) (paths s) (f (undoStack s))
          (redoStack s) (currentColor s) (brushSize s) (currentTool s).

Definition setRedoStack
    (f : list (list DrawingPath) -> list (list DrawingPath)) (s : State)
    : State :=
  mkState (isDrawing s) (currentPath s) (paths s) (undoStack s)
          (f (redoStack s)) (currentColor s) (brushSize s) (currentTool s).

Definition setCurrentColor (f : string -> string) (s : State) : State :=
  mkState (isDrawing s) (currentPath s) (paths s) (undoStack s)
          (redoStack s) (f (currentColor s)) (brushSize s) (currentTool s).

Definition setBrushSize (f : Z -> Z) (s : State) : State :=
  mkState (isDrawing s) (currentPath s) (paths s) (undoStack s)
          (redoStack s) (currentColor s) (f (brushSize s)) (currentTool s).

Definition setCurrentTool (f : Tool -> Tool) (s : State) : State :=
  mkState (isDrawing s) (currentPath s) (paths s) (undoStack s)
          (redoStack s) (currentColor s) (brushSize s) (f (currentTool s)).

(** ** Event handlers *)

Record MouseEvent := mkMouseEvent { clientX : Z; clientY : Z }.

(** [canvasRef.current] is [None] until the canvas is mounted. *)
Definition getPointFromEvent (canvasRef : option Canvas)
    (e : MouseEvent) : Point :=
  match canvasRef with
  | None => {| x := 0; y := 0 |}
  | Some canvas =>
      {| x := clientX e - rect_left canvas;
         y := clientY e - rect_top canvas |}
  end.

Definition startDrawing (canvasRef : option Canvas) (e : MouseEvent)
    (s : State) : State :=
  let point := getPointFromEvent canvasRef e in
  s |> setIsDrawing (fun _ => true)
    |> setCurrentPath (fun _ => [point]).

Definition draw (canvasRef : option Canvas) (e : MouseEvent)
    (s : State) : State :=
  if negb (isDrawing s) then s
  else
    let point := getPointFromEvent canvasRef e in
    s |> setCurrentPath (fun prev => prev ++ [point]).

(** The colour a stroke gets from the tool settings. *)
Definition strokeColor (s : State) : string :=
  match currentTool s with
  | eraser => "#000000"
  | pen => currentColor s
  end.

Definition stopDrawing (s : State) : State :=
  if negb (isDrawing s) || (length (currentPath s) =? 0)%nat then s
  else
    let newPath :=
      {| points := currentPath s;
         color := strokeColor s;
         width := brushSize s;
         tool := currentTool s |} in
    s |> setUndoStack (fun prev => prev ++ [paths s])
      |> setRedoStack (fun _ => [])
      |> setPaths (fun prev => prev ++ [newPath])
      |> setCurrentPath (fun _ => [])
      |> setIsDrawing (fun _ => false).

Definition clearCanvas (s : State) : State :=
  s |> setUndoStack (fun prev => prev ++ [paths s])
    |> setRedoStack (fun _ => [])
    |> setPaths (fun _ => [])
    |> setCurrentPath (fun _ => []).

Definition undo (s : State) : State :=
  if (length (undoStack s) =? 0)%nat then s
  else
    let previousState := last (undoStack s) [] in
    s |> setRedoStack (fun prev => prev ++ [paths s])
      |> setPaths (fun _ => previousState)
      |> setUndoStack (fun prev => removelast prev).

Definition redo (s : State) : State :=
  if (length (redoStack s) =? 0)%nat then s
  else
    let nextState := last (redoStack s) [] in
    s |> setUndoStack (fun prev => prev ++ [paths s])
      |> setPaths (fun _ => nextState)
      |> setRedoStack (fun prev => removelast prev).

Definition adjustBrushSize (delta : Z) (s : State) : State :=
  s |> setBrushSize (fun prev => Z.max 1 (Z.min 50 (prev + delta))).

(** ** Rendering *)

Definition drawPath (ctx : Context2D) (path : DrawingPath) : Context2D :=
  if (length (points path) <? 2)%nat then ctx
  else
    match points path with
    | [] => ctx
    | p0 :: rest =>
        ctx |> beginPath
            |> set_strokeStyle (color path)
            |> set_lineWidth (width path)
            |> set_lineCap cap_round
            |> set_lineJoin join_round
            |> set_globalCompositeOperation
                 (match tool path with
                  | eraser => destination_out
                  | pen => source_over
                  end)
            |> moveTo (x p0) (y p0)
            |> fold_left (fun c p => lineTo (x p) (y p) c) rest
            |> stroke
    end.

(** The stroke being drawn, as [redrawCanvas] hands it to [drawPath]. *)
Definition currentDrawingPath (s : State) : DrawingPath :=
  {| points := currentPath s;
     color := strokeColor s;
     width := brushSize s;
     tool := currentTool s |}.

(** The effect of the component calls [redrawCanvas] after a render in
    which [paths], [currentPath] or a tool setting changed. *)
Definition redrawCanvas (s : State) (canvasRef : option Canvas)
    : option Canvas :=
  match canvasRef with
  | None => None
  | Some canvas =>
      let ctx := context canvas in
      let ctx := clearRect 0 0 (Canvas2D.width canvas) (height canvas) ctx in
      let ctx := fold_left drawPath (paths s) ctx in
      let ctx :=
        if (1 <? length (currentPath s))%nat
        then drawPath ctx (currentDrawingPath s)
        else ctx in
      Some (withContext canvas ctx)
  end.

(** ** Export *)

(** A file handed to the browser for download: the [download] attribute
    of the link and the canvas whose PNG encoding is its [href]. *)
Record Download := mkDownload {
  download : string;
  image : Canvas
}.

(** What [downloadImage] can reach: the component state, the mounted
    canvas and the downloads triggered so far. *)
Record World := mkWorld {
  state : State;
  canvasRef : option Canvas;
  downloads : list Download
}.

Definition downloadImage (w : World) : World :=
  match canvasRef w with
  | None => w
  | Some canvas =>
      let tempCanvas :=
        createCanvas (Canvas2D.width canvas) (height canvas) in
      let tempCtx :=
        context tempCanvas
          |> set_fillStyle "#ffffff"
          |> fillRect 0 0 (Canvas2D.width tempCanvas) (height tempCanvas)
          |> drawImage canvas 0 0 in
      {| state := state w;
         canvasRef := canvasRef w;
         downloads :=
           downloads w
             ++ [ {| download := "sketch.png";
                     image := withContext tempCanvas tempCtx |} ] |}
  end.

(** ** Sessions *)

(** The events the JSX wires to handlers. *)
Inductive Event :=
| MouseDown (e : MouseEvent)
| MouseMove (e : MouseEvent)
| MouseUp
| MouseLeave
| SelectTool (t : Tool)
| SelectColor (c : string)
| ClickMinus
| ClickPlus
| ClickUndo
| ClickRedo
| ClickClear.

Definition step (ref : option Canvas) (s : State) (ev : Event) : State :=
  match ev with
  | MouseDown e => startDrawing ref e s
  | MouseMove e => draw ref e s
  | MouseUp | MouseLeave => stopDrawing s
  | SelectTool t => setCurrentTool (fun _ => t) s
  | SelectColor c => setCurrentColor (fun _ => c) s
  | ClickMinus => adjustBrushSize (-1) s
  | ClickPlus => adjustBrushSize 1 s
  | ClickUndo => undo s
  | ClickRedo => redo s
  | ClickClear => clearCanvas s
  end.

(** A session in which a render follows every event, so that each
    handler closes over the state the previous event left. *)
Definition run (ref : option Canvas) (s : State) (evs : list Event) : State :=
  fold_left (step ref) evs s.

(** ** Renders and closures

    React does not render after every event: a handler is the one the
    last render created and reads [isDrawing], [currentPath], [paths],
    the stacks and the tool settings as that render had them, while its
    [setX] calls are queued and a functional update receives the value
    the queue has reached.  [rendered] is the state of the last render,
    [pending] that state with the queued updates applied. *)
Record Component := mkComponent {
  rendered : State;
  pending : State
}.

(** The handlers with the closure [c] apart from the state [s] their
    updates apply to.  [startDrawing], [adjustBrushSize] and the plain
    setters read no state. *)
Definition drawIn (canvasRef : option Canvas) (e : MouseEvent)
    (c s : State) : State :=
  if negb (isDrawing c) then s
  else
    let point := getPointFromEvent canvasRef e in
    s |> setCurrentPath (fun prev => prev ++ [point]).

Definition stopDrawingIn (c s : State) : State :=
  if negb (isDrawing c) || (length (currentPath c) =? 0)%nat then s
  else
    let newPath :=
      {| points := currentPath c;
         color := strokeColor c;
         width := brushSize c;
         tool := currentTool c |} in
    s |> setUndoStack (fun prev => prev ++ [paths c])
      |> setRedoStack (fun _ => [])
      |> setPaths (fun prev => prev ++ [newPath])
      |> setCurrentPath (fun _ => [])
      |> setIsDrawing (fun _ => false).

Definition clearCanvasIn (c s : State) : State :=
  s |> setUndoStack (fun prev => prev ++ [paths c])
    |> setRedoStack (fun _ => [])
    |> setPaths (fun _ => [])
    |> setCurrentPath (fun _ => []).

Definition undoIn (c s : State) : State :=
  if (length (undoStack c) =? 0)%nat then s
  else
    let previousState := last (undoStack c) [] in
    s |> setRedoStack (fun prev => prev ++ [paths c])
      |> setPaths (fun _ => previousState)
      |> setUndoStack (fun prev => removelast prev).

Definition redoIn (c s : State) : State :=
  if (length (redoStack c) =? 0)%nat then s
  else
    let nextState := last (redoStack c) [] in
    s |> setUndoStack (fun prev => prev ++ [paths c])
      |> setPaths (fun _ => nextState)
      |> setRedoStack (fun prev => removelast prev).

Definition handle (ref : option Canvas) (c : State) (ev : Event) (s : State)
    : State :=
  match ev with
  | MouseDown e => startDrawing ref e s
  | MouseMove e => drawIn ref e c s
  | MouseUp | MouseLeave => stopDrawingIn c s
  | SelectTool t => setCurrentTool (fun _ => t) s
  | SelectColor col => setCurrentColor (fun _ => col) s
  | ClickMinus => adjustBrushSize (-1) s
  | ClickPlus => adjustBrushSize 1 s
  | ClickUndo => undoIn c s
  | ClickRedo => redoIn c s
  | ClickClear => clearCanvasIn c s
  end.

(** What happens to the component: an event is handled, or React renders. *)
Inductive Tick :=
| Fire (ev : Event)
| Render.

Definition tick (ref : option Canvas) (k : Component) (t : Tick) : Component :=
  match t with
  | Fire ev =>
      {| rendered := rendered k;
         pending := handle ref (rendered k) ev (pending k) |}
  | Render => {| rendered := pending k; pending := pending k |}
  end.

Definition runTicks (ref : option Canvas) (k : Component) (ts : list Tick)
    : Component :=
  fold_left (tick ref) ts k.

Definition moveOrRender (t : Tick) : bool :=
  match t with
  | Fire (MouseMove _) | Render => true
  | _ => false
  end.

(** The pointer positions the moves among [ts] report, in order. *)
Definition samplesOf (ts : list Tick) : list MouseEvent :=
  flat_map (fun t => match t with
                     | Fire (MouseMove e) => [e]
                     | _ => []
                     end) ts.

(** Whether [ev], handled in state [s], is a commit of the pending stroke
    or a clear: the two actions that record a snapshot for undo. *)
Definition recordsSnapshot (s : State) (ev : Event) : bool :=
  match ev with
  | MouseUp | MouseLeave =>
      isDrawing s && negb (length (currentPath s) =? 0)%nat
  | ClickClear => true
  | _ => false
  end.

Definition isUndoRedo (ev : Event) : bool :=
  match ev with
  | ClickUndo | ClickRedo => true
  | _ => false
  end.

(** The number of commits and clears in a session. *)
Fixpoint snapshotsRecorded (ref : option Canvas) (s : State)
    (evs : list Event) : nat :=
  match evs with
  | [] => 0
  | ev :: rest =>
      (if recordsSnapshot s ev then 1 else 0)
      + snapshotsRecorded ref (step ref s ev) rest
  end.

(** A rasteriser to evaluate examples with: a square brush of half-side
    [lw] stamped on every vertex of every subpath of two points or more. *)
Definition stampRasterizer : Rasterizer :=
  fun subpaths lw _ _ px =>
    existsb
      (fun sp =>
         (1 <? length sp)%nat
         && existsb
              (fun v =>
                 (Z.abs (fst px - fst v) <=? lw)
                 && (Z.abs (snd px - snd v) <=? lw))
              sp)
      subpaths.

(** ** Notions the statements use *)

(** The oldest drawing a state remembers: the bottom of the undo stack,
    or the current drawing when nothing is recorded. *)
Definition oldestDrawing (s : State) : list DrawingPath :=
  match undoStack s with
  | [] => paths s
  | bottom :: _ => bottom
  end.

(** The outline [drawPath] traces for a stroke: one subpath through its
    points, in order. *)
Definition outline (path : DrawingPath) : list Subpath :=
  [map (fun p => (x p, y p)) (points path)].

Definition compositeOf (t : Tool) : CompositeOperation :=
  match t with
  | eraser => destination_out
  | pen => source_over
  end.

(** The paint operation of a stroke drawn at its own width. *)
Definition strokeOp (path : DrawingPath) : PaintOp :=
  Stroke (outline path) (color path) (width path) cap_round join_round
         (compositeOf (tool path)).

Definition drawable (path : DrawingPath) : bool :=
  (2 <=? length (points path))%nat.

(** What a render paints after clearing: the committed strokes that have
    two points or more, in commit order, then the stroke in progress. *)
Definition displayList (s : State) : list PaintOp :=
  map strokeOp (filter drawable (paths s))
  ++ (if drawable (currentDrawingPath s)
      then [strokeOp (currentDrawingPath s)]
      else []).

(** The line width in force when [drawPath] strokes [path] on [ctx]: the
    stroke's own, unless the context refused it. *)
Definition effectiveWidth (ctx : Context2D) (path : DrawingPath) : Z :=
  if 0 <? width path then width path else lineWidth ctx.

(** [P] holds of every stroke the history holds: in the current drawing
    and in every snapshot of either stack. *)
Definition historyAll (P : DrawingPath -> Prop) (s : State) : Prop :=
  Forall P (paths s)
  /\ Forall (Forall P) (undoStack s)
  /\ Forall (Forall P) (redoStack s).

(** An eraser stroke is black. *)
Definition eraserBlack (path : DrawingPath) : Prop :=
  match tool path with
  | eraser => color path = "#000000"
  | pen => True
  end.

(** Widths the brush-size control can produce. *)
Definition widthInRange (w : Z) : Prop := 1 <= w <= 50.

(** The canvas of the JSX, 800 by 600, placed at (100, 50) in the page. *)
Definition mountedCanvas : Canvas :=
  {| Canvas2D.width := 800; height := 600; rect_left := 100; rect_top := 50;
     context := freshContext |}.

(** The events that can occur while the pointer is held down without
    ending the capture or touching the history: moves and changes of the
    tool settings. *)
Definition midCapture (ev : Event) : bool :=
  match ev with
  | MouseMove _ | SelectTool _ | SelectColor _ | ClickMinus | ClickPlus => true
  | _ => false
  end.

(** The drawings a state holds, oldest first: the snapshots to undo to,
    the current drawing, then the snapshots to redo to, nearest first. *)
Definition timeline (s : State) : list (list DrawingPath) :=
  undoStack s ++ paths s :: rev (redoStack s).

(** The events of the pointer that [draw] and [stopDrawing] handle. *)
Definition pointerOnly (ev : Event) : bool :=
  match ev with
  | MouseMove _ | MouseUp | MouseLeave => true
  | _ => false
  end.

(** A stroke as a commit makes it: of a width the brush control can
    produce, and with a point at least. *)
Definition wellFormedStroke (p : DrawingPath) : Prop :=
  widthInRange (width p) /\ points p <> [].

(** ** Example data *)

Definition mounted : option Canvas := Some mountedCanvas.

(** Pointer positions over the canvas origin and ten pixels down-right. *)
Definition atOrigin : MouseEvent := {| clientX := 100; clientY := 50 |}.
Definition atTen : MouseEvent := {| clientX := 110; clientY := 60 |}.

Definition strokeA : DrawingPath :=
  {| points := [mkPoint 0 0; mkPoint 10 10]; color := "#FF0000";
     width := 5; tool := pen |}.

Definition strokeB : DrawingPath :=
  {| points := [mkPoint 0 0; mkPoint 10 10]; color := "#000000";
     width := 20; tool := eraser |}.

(** A pen stroke, a clear, then an eraser stroke. *)
Definition sessionThree : list Event :=
  [ MouseDown atOrigin; MouseMove atTen; MouseUp;
    ClickClear;
    SelectTool eraser;
    MouseDown atOrigin; MouseMove atTen; MouseLeave ].

(** A red pen stroke, then an eraser stroke over it. *)
Definition sessionPenEraser : list Event :=
  [ SelectColor "#FF0000";
    MouseDown atOrigin; MouseMove atTen; MouseUp;
    SelectTool eraser;
    MouseDown atOrigin; MouseMove atTen; MouseUp ].

(** The live canvas once the effect has redrawn it after that session. *)
Definition liveCanvas : Canvas :=
  match redrawCanvas (run mounted initialState sessionPenEraser) mounted with
  | Some canvas => canvas
  | None => mountedCanvas
  end.

Definition liveWorld : World :=
  {| state := run mounted initialState sessionPenEraser;
     canvasRef := Some liveCanvas;
     downloads := [] |}.

(** A move, then the colour and the brush size changed with the pointer
    still down. *)
Definition changesMidStroke : list Event :=
  [MouseMove atTen; SelectColor "#FF0000"; ClickPlus].

(** A stroke drawn and undone: the redo stack holds one snapshot. *)
Definition afterOneUndo : State :=
  run mounted initialState
      [MouseDown atOrigin; MouseMove atTen; MouseUp; ClickUndo].

(** A capture of two points with the default pen, not yet released, and
    the live canvas showing it. *)
Definition previewSession : list Event :=
  [MouseDown atOrigin; MouseMove atTen].

Definition previewCanvas : Canvas :=
  match redrawCanvas (run mounted initialState previewSession) mounted with
  | Some canvas => canvas
  | None => mountedCanvas
  end.

Definition previewWorld : World :=
  {| state := run mounted initialState previewSession;
     canvasRef := Some previewCanvas;
     downloads := [] |}.

(** A red pen stroke, an eraser stroke over it, then the pen again, held
    down over the erased part with two points pending. *)
Definition sessionRetouch : list Event :=
  sessionPenEraser ++ [SelectTool pen; MouseDown atOrigin; MouseMove atTen].

Definition retouchCanvas : Canvas :=
  match redrawCanvas (run mounted initialState sessionRetouch) mounted with
  | Some canvas => canvas
  | None => mountedCanvas
  end.

Definition retouchWorld : World :=
  {| state := run mounted initialState sessionRetouch;
     canvasRef := Some retouchCanvas;
     downloads := [] |}.

(** * History *)

Section History.

Lemma length_snoc_eqb {A} (l : list A) (a : A) :
  (length (l ++ [a]) =? 0)%nat = false.
Proof. rewrite length_app; simpl. apply Nat.eqb_neq. lia. Qed.

Lemma length_eqb_nil {A} (l : list A) :
  (length l =? 0)%nat = true <-> l = [].
Proof.
  destruct l; simpl; split; intro E; try reflexivity; discriminate.
Qed.

Lemma undo_empty s : undoStack s = [] -> undo s = s.
Proof. intro E. unfold undo. rewrite E. reflexivity. Qed.

Lemma redo_empty s : redoStack s = [] -> redo s = s.
Proof. intro E. unfold redo. rewrite E. reflexivity. Qed.

Lemma undo_snoc d cp ps us top rs c b t :
  undo (mkState d cp ps (us ++ [top]) rs c b t)
  = mkState d cp top us (rs ++ [ps]) c b t.
Proof.
  unfold undo; cbn [undoStack].
  rewrite length_snoc_eqb.
  unfold setRedoStack, setPaths, setUndoStack; cbn.
  rewrite last_last, removelast_last. reflexivity.
Qed.

Lemma redo_snoc d cp ps us top rs c b t :
  redo (mkState d cp ps us (rs ++ [top]) c b t)
  = mkState d cp top (us ++ [ps]) rs c b t.
Proof.
  unfold redo; cbn [redoStack].
  rewrite length_snoc_eqb.
  unfold setRedoStack, setPaths, setUndoStack; cbn.
  rewrite last_last, removelast_last. reflexivity.
Qed.

(** [redo] takes back an [undo] that had something to undo. *)
Lemma redo_undo s : undoStack s <> [] -> redo (undo s) = s.
Proof.
  destruct s as [d cp ps us rs c b t]; cbn [undoStack]; intro NE.
  destruct (exists_last NE) as (us' & top & ->).
  rewrite undo_snoc, redo_snoc. reflexivity.
Qed.

Lemma undoStack_undo s : undoStack (undo s) = removelast (undoStack s).
Proof.
  unfold undo. destruct (length (undoStack s) =? 0)%nat eqn:E.
  - apply length_eqb_nil in E. rewrite E. reflexivity.
  - reflexivity.
Qed.

Lemma length_removelast {A} (l : list A) :
  length (removelast l) = pred (length l).
Proof.
  induction l as [|a [|b l] IH]; try reflexivity.
  change (removelast (a :: b :: l)) with (a :: removelast (b :: l)).
  simpl length in *. rewrite IH. reflexivity.
Qed.

Lemma redo_n_undo_n n : forall s,
  (n <= length (undoStack s))%nat ->
  Nat.iter n redo (Nat.iter n undo s) = s.
Proof.
  induction n as [|n IH]; intros s Hn; [reflexivity|].
  rewrite (Nat.iter_succ_r n State undo s), Nat.iter_succ, IH.
  - apply redo_undo. intro E. rewrite E in Hn. simpl in Hn. lia.
  - rewrite undoStack_undo, length_removelast. lia.
Qed.

Lemma oldestDrawing_undo s : oldestDrawing (undo s) = oldestDrawing s.
Proof.
  destruct s as [d cp ps us rs c b t].
  destruct us as [|u us] using rev_ind; [reflexivity|].
  rewrite undo_snoc. unfold oldestDrawing; cbn.
  destruct us; reflexivity.
Qed.

Lemma undo_all s :
  paths (Nat.iter (length (undoStack s)) undo s) = oldestDrawing s
  /\ undoStack (Nat.iter (length (undoStack s)) undo s) = [].
Proof.
  remember (length (undoStack s)) as n eqn:En.
  revert s En. induction n as [|n IH]; intros s En.
  - symmetry in En. apply length_zero_iff_nil in En.
    cbn. unfold oldestDrawing. rewrite En. split; reflexivity.
  - rewrite Nat.iter_succ_r.
    destruct (IH (undo s)) as [Hp Hu].
    + rewrite undoStack_undo, length_removelast. lia.
    + rewrite Hp, Hu, oldestDrawing_undo. split; reflexivity.
Qed.

Variable ref : option Canvas.

(** Outside undo and redo, a step grows the undo stack by exactly the
    snapshot it records and never touches its bottom. *)
Lemma step_records s ev :
  isUndoRedo ev = false ->
  length (undoStack (step ref s ev))
  = (length (undoStack s) + (if recordsSnapshot s ev then 1 else 0))%nat
  /\ oldestDrawing (step ref s ev) = oldestDrawing s.
Proof.
  destruct s as [d cp ps us rs c b t].
  destruct ev; intro NU; try discriminate; cbn;
    try (split; [lia | reflexivity]).
  - unfold draw; cbn. destruct d; cbn; split; solve [lia | reflexivity].
  - unfold stopDrawing; cbn.
    destruct d, cp; cbn; rewrite ?length_app; cbn;
      (split; [lia|]); try reflexivity.
    unfold oldestDrawing; cbn. destruct us; reflexivity.
  - unfold stopDrawing; cbn.
    destruct d, cp; cbn; rewrite ?length_app; cbn;
      (split; [lia|]); try reflexivity.
    unfold oldestDrawing; cbn. destruct us; reflexivity.
  - unfold clearCanvas; cbn. rewrite length_app; cbn. split; [lia|].
    unfold oldestDrawing; cbn. destruct us; reflexivity.
Qed.

Lemma run_records evs : forall s,
  forallb (fun ev => negb (isUndoRedo ev)) evs = true ->
  length (undoStack (run ref s evs))
  = (length (undoStack s) + snapshotsRecorded ref s evs)%nat
  /\ oldestDrawing (run ref s evs) = oldestDrawing s.
Proof.
  induction evs as [|ev evs IH]; intros s Hno; cbn.
  - split; [lia | reflexivity].
  - cbn in Hno. apply andb_true_iff in Hno. destruct Hno as [Hev Hno].
    apply negb_true_iff in Hev.
    destruct (step_records s ev Hev) as [Hl Ho].
    destruct (IH (step ref s ev) Hno) as [Hl' Ho'].
    unfold run in *. rewrite Hl', Ho', Hl, Ho. split; [lia | reflexivity].
Qed.

End History.

(** * Undo, redo and clear *)

(** C6. [undo] on an empty undo stack and [redo] on an empty redo stack
    return the state unchanged; otherwise [undo] makes the top of the undo
    stack the current drawing, removes it from the undo stack and pushes
    the displaced current drawing on the redo stack, and [redo] does the
    same with the two stacks exchanged.  Nothing else changes. *)
Theorem undo_redo_stack_discipline d cp ps us top rs c b t :
  undo (mkState d cp ps [] rs c b t) = mkState d cp ps [] rs c b t
  /\ redo (mkState d cp ps us [] c b t) = mkState d cp ps us [] c b t
  /\ undo (mkState d cp ps (us ++ [top]) rs c b t)
     = mkState d cp top us (rs ++ [ps]) c b t
  /\ redo (mkState d cp ps us (rs ++ [top]) c b t)
     = mkState d cp top (us ++ [ps]) rs c b t.
Proof.
  repeat split.
  - apply undo_snoc.
  - apply redo_snoc.
Qed.

(** C8. [clearCanvas] pushes the current drawing on the undo stack,
    empties the redo stack and the current drawing, whatever the current
    drawing is; an [undo] right after it brings the drawing and the undo
    stack back.  With an empty drawing the clear still records a
    snapshot [[]], and the undo restores the empty drawing and the depth
    of the undo stack. *)
Theorem clear_is_recorded_and_undoable d cp ps us rs c b t :
  clearCanvas (mkState d cp ps us rs c b t)
  = mkState d [] [] (us ++ [ps]) [] c b t
  /\ undo (clearCanvas (mkState d cp ps us rs c b t))
     = mkState d [] ps us [[]] c b t
  /\ undoStack (clearCanvas (mkState d cp [] us rs c b t)) = us ++ [[]]
  /\ paths (undo (clearCanvas (mkState d cp [] us rs c b t))) = []
  /\ length (undoStack (undo (clearCanvas (mkState d cp [] us rs c b t))))
     = length us.
Proof.
  assert (E : forall ps', clearCanvas (mkState d cp ps' us rs c b t)
                          = mkState d [] [] (us ++ [ps']) [] c b t)
    by reflexivity.
  rewrite !E, !undo_snoc. repeat split.
Qed.

(** C2. In a session from the initial state that contains [N] commits and
    clears and no undo or redo, [N] undos bring the current drawing back
    to the empty one, and [N] redos after them restore the final drawing;
    the whole state, stacks included, is the one before the undos. *)
Theorem history_round_trip (ref : option Canvas) (evs : list Event) :
  forallb (fun ev => negb (isUndoRedo ev)) evs = true ->
  let s := run ref initialState evs in
  let N := snapshotsRecorded ref initialState evs in
  paths (Nat.iter N undo s) = []
  /\ paths (Nat.iter N redo (Nat.iter N undo s)) = paths s
  /\ Nat.iter N redo (Nat.iter N undo s) = s.
Proof.
  intros Hno s N.
  destruct (run_records ref evs initialState Hno) as [Hl Ho].
  fold s in Hl, Ho. cbn in Hl. fold N in Hl.
  assert (R : Nat.iter N redo (Nat.iter N undo s) = s)
    by (apply redo_n_undo_n; lia).
  rewrite R. repeat split.
  rewrite <- Hl. rewrite (proj1 (undo_all s)). exact Ho.
Qed.

(** C5. Whatever was undone, and whatever happened since, a pointer-up
    that commits a pending stroke of two points or more leaves the redo
    stack empty, and a [redo] after it changes nothing. *)
Theorem commit_after_undo_clears_redo (ref : option Canvas) (s0 : State)
    (evs : list Event) :
  let s := run ref (undo s0) evs in
  isDrawing s = true ->
  (2 <= length (currentPath s))%nat ->
  paths (stopDrawing s) = paths s ++ [currentDrawingPath s]
  /\ redoStack (stopDrawing s) = []
  /\ redo (stopDrawing s) = stopDrawing s.
Proof.
  intros s Hd Hl.
  assert (E : stopDrawing s
              = mkState false [] (paths s ++ [currentDrawingPath s])
                        (undoStack s ++ [paths s]) [] (currentColor s)
                        (brushSize s) (currentTool s)).
  { unfold stopDrawing. rewrite Hd.
    destruct (currentPath s) eqn:Ec; [simpl in Hl; lia|].
    cbn. unfold currentDrawingPath. rewrite Ec. reflexivity. }
  rewrite E. cbn. repeat split.
Qed.

(** * The stroke-drawing primitive *)

Section Primitive.

Lemma set_path_set_path v v' c : set_path v (set_path v' c) = set_path v c.
Proof. reflexivity. Qed.

Lemma lineTo_fold rest : forall c sp,
  path c = [sp] ->
  fold_left (fun c p => lineTo (x p) (y p) c) rest c
  = set_path [sp ++ map (fun p => (x p, y p)) rest] c.
Proof.
  induction rest as [|q rest IH]; intros c sp Hc; cbn [fold_left map].
  - rewrite app_nil_r. destruct c; cbn in *; subst; reflexivity.
  - rewrite (IH _ (sp ++ [(x q, y q)])).
    + unfold lineTo. rewrite Hc. rewrite set_path_set_path.
      rewrite <- app_assoc. reflexivity.
    + unfold lineTo. rewrite Hc. reflexivity.
Qed.

Lemma drawable_spec path :
  drawable path = true <-> (2 <= length (points path))%nat.
Proof. unfold drawable. apply Nat.leb_le. Qed.

Lemma drawPath_skip ctx path : drawable path = false -> drawPath ctx path = ctx.
Proof.
  unfold drawable, drawPath. intro Hd.
  apply Nat.leb_gt in Hd.
  destruct (Nat.ltb_spec (length (points path)) 2); [reflexivity | lia].
Qed.

Lemma drawPath_draws ctx path :
  drawable path = true ->
  drawPath ctx path
  = mkContext2D (color path) (fillStyle ctx) (effectiveWidth ctx path)
                cap_round join_round (compositeOf (tool path)) (outline path)
                (bitmap ctx
                 ++ [Stroke (outline path) (color path)
                            (effectiveWidth ctx path) cap_round join_round
                            (compositeOf (tool path))]).
Proof.
  intro Hd. apply drawable_spec in Hd.
  unfold drawPath, outline, effectiveWidth.
  destruct (Nat.ltb_spec (length (points path)) 2); [lia|].
  destruct (points path) as [|p0 rest]; [simpl in Hd; lia|].
  unfold set_lineWidth.
  destruct (0 <? width path);
    rewrite (lineTo_fold rest _ [(x p0, y p0)]) by reflexivity;
    reflexivity.
Qed.

Lemma effectiveWidth_pos ctx path :
  0 < width path -> effectiveWidth ctx path = width path.
Proof.
  unfold effectiveWidth. intro Hw.
  destruct (Z.ltb_spec 0 (width path)); [reflexivity | lia].
Qed.

Lemma drawPath_bitmap ctx path :
  0 < width path ->
  bitmap (drawPath ctx path)
  = bitmap ctx ++ (if drawable path then [strokeOp path] else []).
Proof.
  intro Hw. destruct (drawable path) eqn:Hd.
  - rewrite drawPath_draws by assumption. cbn [bitmap].
    rewrite effectiveWidth_pos by assumption. reflexivity.
  - rewrite drawPath_skip by assumption. now rewrite app_nil_r.
Qed.

Lemma fold_drawPath_bitmap ps : forall ctx,
  Forall (fun p => 0 < width p) ps ->
  bitmap (fold_left drawPath ps ctx)
  = bitmap ctx ++ map strokeOp (filter drawable ps).
Proof.
  induction ps as [|p ps IH]; intros ctx Hw; cbn [fold_left filter].
  - now rewrite app_nil_r.
  - inversion Hw as [|? ? Hp Hps]; subst.
    rewrite IH by assumption. rewrite drawPath_bitmap by assumption.
    destruct (drawable p); cbn [map]; rewrite <- app_assoc; reflexivity.
Qed.

Context {R : Rasterizer}.

Lemma renderOps_app a b px :
  renderOps (a ++ b) px = fold_left (fun acc o => paint o px acc) b (renderOps a px).
Proof. unfold renderOps. apply fold_left_app. Qed.

Lemma renderOps_snoc a op px :
  renderOps (a ++ [op]) px = paint op px (renderOps a px).
Proof. rewrite renderOps_app. reflexivity. Qed.

Lemma renderOps_cleared a w h b px :
  inRect 0 0 w h px = true ->
  renderOps (a ++ ClearRect 0 0 w h :: b) px = renderOps b px.
Proof.
  intro Hin. rewrite renderOps_app. cbn [fold_left paint].
  rewrite Hin. reflexivity.
Qed.

Lemma paint_stroke_covered sp style lw cap join gco px dst :
  strokeCovers sp lw cap join px = true ->
  paint (Stroke sp style lw cap join gco) px dst
  = match gco with source_over => Some style | destination_out => None end.
Proof. intro Hc. cbn. rewrite Hc. reflexivity. Qed.

End Primitive.

(** * Invariants of a session *)

Section Invariants.

Variable ref : option Canvas.

Lemma run_invariant (I : State -> Prop) :
  (forall s ev, I s -> I (step ref s ev)) ->
  forall evs s, I s -> I (run ref s evs).
Proof.
  intros Hstep evs. induction evs as [|ev evs IH]; intros s Hs; cbn.
  - exact Hs.
  - apply IH, Hstep, Hs.
Qed.

Lemma Forall_last {A} (Q : A -> Prop) l d : Forall Q l -> Q d -> Q (last l d).
Proof.
  intros Hl Hd. induction Hl as [|a l Ha Hl IH]; [exact Hd|].
  destruct l; [exact Ha | exact IH].
Qed.

Lemma Forall_removelast {A} (Q : A -> Prop) l :
  Forall Q l -> Forall Q (removelast l).
Proof.
  intros Hl. induction Hl as [|a l Ha Hl IH]; [constructor|].
  destruct l; [constructor|]. constructor; assumption.
Qed.

Lemma Forall_snoc {A} (Q : A -> Prop) l a :
  Forall Q l -> Q a -> Forall Q (l ++ [a]).
Proof. intros Hl Ha. apply Forall_app. split; [assumption | now constructor]. Qed.

Variable P : DrawingPath -> Prop.

(** A step keeps [P] on every stroke of the history, provided the stroke
    it may commit satisfies [P]. *)
Lemma step_historyAll s ev :
  P (currentDrawingPath s) -> historyAll P s -> historyAll P (step ref s ev).
Proof.
  intros Hnew (Hp & Hu & Hr).
  assert (Hnil : Forall P []) by constructor.
  destruct ev; cbn [step];
    try (unfold draw; destruct (isDrawing s));
    try (unfold stopDrawing;
         destruct (negb (isDrawing s) || (length (currentPath s) =? 0)%nat));
    try (unfold undo; destruct (length (undoStack s) =? 0)%nat);
    try (unfold redo; destruct (length (redoStack s) =? 0)%nat);
    repeat split; cbn;
    repeat first
      [ assumption
      | exact Hnew
      | constructor
      | apply Forall_snoc
      | apply Forall_removelast
      | apply Forall_last ].
Qed.

End Invariants.

Lemma eraserBlack_current s : eraserBlack (currentDrawingPath s).
Proof.
  unfold eraserBlack, currentDrawingPath, strokeColor; cbn.
  destruct (currentTool s) eqn:E; [exact I|]. reflexivity.
Qed.

Lemma reachable_eraserBlack ref evs :
  historyAll eraserBlack (run ref initialState evs).
Proof.
  apply run_invariant.
  - intros s ev. apply step_historyAll, eraserBlack_current.
  - repeat split; constructor.
Qed.

Lemma step_brushSize ref s ev :
  widthInRange (brushSize s) -> widthInRange (brushSize (step ref s ev)).
Proof.
  unfold widthInRange. intro Hb.
  destruct ev; cbn [step]; try exact Hb.
  - unfold draw. destruct (isDrawing s); exact Hb.
  - unfold stopDrawing.
    destruct (negb (isDrawing s) || (length (currentPath s) =? 0)%nat);
      exact Hb.
  - unfold stopDrawing.
    destruct (negb (isDrawing s) || (length (currentPath s) =? 0)%nat);
      exact Hb.
  - cbn. lia.
  - cbn. lia.
  - unfold undo. destruct (length (undoStack s) =? 0)%nat; exact Hb.
  - unfold redo. destruct (length (redoStack s) =? 0)%nat; exact Hb.
Qed.

(** In a session the brush size stays within 1..50, and so does the
    width of every stroke of the history. *)
Lemma reachable_widths ref evs :
  let s := run ref initialState evs in
  widthInRange (brushSize s)
  /\ historyAll (fun p => widthInRange (width p)) s.
Proof.
  apply (run_invariant ref
           (fun s => widthInRange (brushSize s)
                     /\ historyAll (fun p => widthInRange (width p)) s)).
  - intros s ev [Hb Hh]. split.
    + apply step_brushSize, Hb.
    + apply step_historyAll; [exact Hb | exact Hh].
  - split; [unfold widthInRange; cbn; lia | repeat split; constructor].
Qed.

(** * The render *)

Lemma redrawCanvas_bitmap s canvas :
  Forall (fun p => 0 < width p) (paths s) ->
  0 < brushSize s ->
  exists ctx',
    redrawCanvas s (Some canvas) = Some (withContext canvas ctx')
    /\ bitmap ctx'
       = bitmap (context canvas)
         ++ ClearRect 0 0 (Canvas2D.width canvas) (height canvas)
            :: displayList s.
Proof.
  intros Hw Hb. unfold redrawCanvas. eexists. split; [reflexivity|].
  unfold displayList.
  replace (1 <? length (currentPath s))%nat
    with (drawable (currentDrawingPath s))
    by (unfold drawable; cbn;
        destruct (Nat.leb_spec 2 (length (currentPath s)));
        destruct (Nat.ltb_spec 1 (length (currentPath s))); lia || reflexivity).
  assert (E : forall ctx, bitmap (if drawable (currentDrawingPath s)
                                  then drawPath ctx (currentDrawingPath s)
                                  else ctx)
                          = bitmap ctx
                            ++ (if drawable (currentDrawingPath s)
                                then [strokeOp (currentDrawingPath s)]
                                else [])).
  { intro ctx. destruct (drawable (currentDrawingPath s)) eqn:Hd.
    - rewrite drawPath_bitmap by exact Hb. rewrite Hd. reflexivity.
    - now rewrite app_nil_r. }
  rewrite E, fold_drawPath_bitmap by assumption.
  cbn [bitmap clearRect addOp]. rewrite <- !app_assoc. reflexivity.
Qed.

Lemma redraw_reachable_bitmap (ref : option Canvas) (evs : list Event)
    (canvas : Canvas) :
  let s := run ref initialState evs in
  exists ctx',
    redrawCanvas s (Some canvas) = Some (withContext canvas ctx')
    /\ bitmap ctx'
       = bitmap (context canvas)
         ++ ClearRect 0 0 (Canvas2D.width canvas) (height canvas)
            :: displayList s.
Proof.
  intros s.
  destruct (reachable_widths ref evs) as [Hb (Hp & _ & _)]. fold s in Hb, Hp.
  apply redrawCanvas_bitmap.
  - eapply Forall_impl; [|exact Hp]. unfold widthInRange. cbn. intros; lia.
  - unfold widthInRange in Hb. lia.
Qed.

Section RenderClaims.
Context {R : Rasterizer}.

(** C1. For a stroke of two points or more [drawPath] sets the
    compositing mode from the stroke's tool, destination-out for the
    eraser and source-over for the pen, and strokes the outline in that
    mode.  A pixel the stroke covers is then transparent for an eraser
    stroke and of the stroke's colour for a pen stroke; so where an eraser
    stroke is drawn over a pen stroke the covered pixels are transparent. *)
Theorem drawPath_composite_mode (ctx : Context2D) (path penStroke : DrawingPath)
    (px : Z * Z) :
  (2 <= length (points path))%nat ->
  let mode := match tool path with
              | eraser => destination_out
              | pen => source_over
              end in
  let ctx' := drawPath ctx path in
  let lw := effectiveWidth ctx path in
  globalCompositeOperation ctx' = mode
  /\ bitmap ctx'
     = bitmap ctx
       ++ [Stroke (outline path) (color path) lw cap_round join_round mode]
  /\ (strokeCovers (outline path) lw cap_round join_round px = true ->
      renderOps (bitmap ctx') px
      = match tool path with
        | eraser => None
        | pen => Some (color path)
        end)
  /\ (tool penStroke = pen ->
      tool path = eraser ->
      strokeCovers (outline path)
                   (effectiveWidth (drawPath ctx penStroke) path)
                   cap_round join_round px = true ->
      renderOps (bitmap (drawPath (drawPath ctx penStroke) path)) px = None).
Proof.
  intros Hlen mode ctx' lw.
  apply drawable_spec in Hlen.
  assert (Hpix : forall c,
            strokeCovers (outline path) (effectiveWidth c path)
                         cap_round join_round px = true ->
            renderOps (bitmap (drawPath c path)) px
            = match tool path with
              | eraser => None
              | pen => Some (color path)
              end).
  { intros c Hc. rewrite (drawPath_draws c path Hlen). cbn [bitmap].
    rewrite renderOps_snoc, paint_stroke_covered by exact Hc.
    destruct (tool path); reflexivity. }
  subst ctx' lw mode. split; [|split; [|split]].
  - rewrite (drawPath_draws ctx path Hlen). reflexivity.
  - rewrite (drawPath_draws ctx path Hlen). reflexivity.
  - apply Hpix.
  - intros _ He Hc. rewrite (Hpix _ Hc), He. reflexivity.
Qed.

(** A render in a reachable state: the operations it appends and the
    pixels it leaves. *)
Lemma redraw_reachable (ref : option Canvas) (evs : list Event)
    (canvas : Canvas) (px : Z * Z) :
  let s := run ref initialState evs in
  exists canvas',
    redrawCanvas s (Some canvas) = Some canvas'
    /\ Canvas2D.width canvas' = Canvas2D.width canvas
    /\ height canvas' = height canvas
    /\ bitmap (context canvas')
       = bitmap (context canvas)
         ++ ClearRect 0 0 (Canvas2D.width canvas) (height canvas)
            :: displayList s
    /\ pixelAt canvas' px
       = (if inRect 0 0 (Canvas2D.width canvas) (height canvas) px
          then renderOps (displayList s) px
          else None).
Proof.
  intros s.
  destruct (redraw_reachable_bitmap ref evs canvas) as (ctx' & Hr & Hbm).
  fold s in Hr, Hbm.
  exists (withContext canvas ctx').
  repeat split; try assumption.
  unfold pixelAt. cbn [withContext Canvas2D.width height context].
  destruct (inRect 0 0 (Canvas2D.width canvas) (height canvas) px) eqn:Hin;
    [|reflexivity].
  rewrite Hbm. apply renderOps_cleared, Hin.
Qed.

(** C7. In any state a session reaches, [redrawCanvas] on the mounted
    canvas appends to the bitmap a clear of the whole surface, then one
    stroke per committed path of two points or more, in commit order
    (paths of fewer points leave no operation), then, when the pending
    capture has two points or more, the stroke in progress with the live
    tool settings.  The pixels after the render are those of that display
    list alone, whatever the canvas held before, and a pixel the stroke in
    progress covers shows it: it is drawn last. *)
Theorem redrawCanvas_pipeline (ref : option Canvas) (evs : list Event)
    (canvas : Canvas) (px : Z * Z) :
  let s := run ref initialState evs in
  let inProgress :=
    {| points := currentPath s;
       color := match currentTool s with
                | eraser => "#000000"
                | pen => currentColor s
                end;
       width := brushSize s;
       tool := currentTool s |} in
  exists canvas',
    redrawCanvas s (Some canvas) = Some canvas'
    /\ Canvas2D.width canvas' = Canvas2D.width canvas
    /\ height canvas' = height canvas
    /\ bitmap (context canvas')
       = bitmap (context canvas)
         ++ ClearRect 0 0 (Canvas2D.width canvas) (height canvas)
            :: map strokeOp (filter drawable (paths s))
            ++ (if (2 <=? length (currentPath s))%nat
                then [strokeOp inProgress]
                else [])
    /\ pixelAt canvas' px
       = (if inRect 0 0 (Canvas2D.width canvas) (height canvas) px
          then renderOps (displayList s) px
          else None)
    /\ ((2 <= length (currentPath s))%nat ->
        inRect 0 0 (Canvas2D.width canvas) (height canvas) px = true ->
        strokeCovers (outline inProgress) (brushSize s)
                     cap_round join_round px = true ->
        pixelAt canvas' px
        = match currentTool s with
          | eraser => None
          | pen => Some (currentColor s)
          end).
Proof.
  intros s inProgress.
  destruct (redraw_reachable ref evs canvas px)
    as (canvas' & Hr & Hw & Hh & Hbm & Hpx).
  fold s in Hr, Hbm, Hpx.
  exists canvas'. repeat split; try assumption.
  intros Hlen Hin Hc. rewrite Hpx, Hin. unfold displayList.
  change (currentDrawingPath s) with inProgress.
  replace (drawable inProgress) with true
    by (symmetry; apply drawable_spec; exact Hlen).
  rewrite renderOps_snoc. unfold strokeOp.
  rewrite paint_stroke_covered by exact Hc.
  cbn. destruct (currentTool s); reflexivity.
Qed.

End RenderClaims.

(** * Export *)

Section ExportClaims.
Context {R : Rasterizer}.

Lemma pixelAt_exported canvas tempCtx px :
  bitmap tempCtx
  = [FillRect 0 0 (Canvas2D.width canvas) (height canvas) "#ffffff" source_over;
     DrawImage (Canvas2D.width canvas) (height canvas)
               (bitmap (context canvas)) 0 0 source_over] ->
  inRect 0 0 (Canvas2D.width canvas) (height canvas) px = true ->
  pixelAt (withContext (createCanvas (Canvas2D.width canvas) (height canvas))
                       tempCtx) px
  = match pixelAt canvas px with
    | None => Some "#ffffff"
    | Some c => Some c
    end.
Proof.
  intros Hbm Hin. unfold pixelAt.
  cbn [withContext createCanvas Canvas2D.width height context].
  rewrite Hin, Hbm. unfold renderOps at 1. cbn [fold_left paint].
  rewrite !Z.sub_0_r. destruct px as [px1 px2]. cbn [fst snd] in *.
  rewrite Hin. cbn [fst snd composite].
  change (fold_left (fun acc o => paint o (px1, px2) acc)
                    (bitmap (context canvas)) None)
    with (renderOps (bitmap (context canvas)) (px1, px2)).
  destruct (renderOps (bitmap (context canvas)) (px1, px2)); reflexivity.
Qed.

Lemma erasers_keep_transparent px l :
  Forall (fun p => tool p = eraser) l ->
  forall ops, renderOps ops px = None ->
  renderOps (ops ++ map strokeOp l) px = None.
Proof.
  induction 1 as [|p l Hp _ IH]; intros ops Hops; cbn [map].
  - now rewrite app_nil_r.
  - change (strokeOp p :: map strokeOp l)
      with ([strokeOp p] ++ map strokeOp l).
    rewrite app_assoc. apply IH.
    rewrite renderOps_snoc, Hops. unfold strokeOp. rewrite Hp. cbn.
    destruct (strokeCovers (outline p) (width p) cap_round join_round px);
      reflexivity.
Qed.

(** C9, as the code has it.  With the canvas mounted, [downloadImage]
    hands the browser one file, [sketch.png], made on a fresh canvas of
    the same size: first a fill of the whole buffer with opaque white,
    then the live canvas, as the last render left it, drawn over it.  No
    pixel of the file is transparent: it is white where the live canvas is
    transparent and has the live colour elsewhere.  A pixel that an eraser
    stroke of the drawing covers is transparent on the live canvas and
    white in the file, provided the strokes committed after it are eraser
    strokes and no pen stroke is in progress.  The component state (the
    current drawing and both stacks) and the live canvas are left as they
    were. *)
Theorem downloadImage_flattens_on_white (w : World) (canvas : Canvas)
    (px : Z * Z) :
  canvasRef w = Some canvas ->
  exists out : Canvas,
    downloadImage w
    = {| state := state w;
         canvasRef := Some canvas;
         downloads := downloads w
                      ++ [ {| download := "sketch.png"; image := out |} ] |}
    /\ Canvas2D.width out = Canvas2D.width canvas
    /\ height out = height canvas
    /\ bitmap (context out)
       = [FillRect 0 0 (Canvas2D.width canvas) (height canvas)
                   "#ffffff" source_over;
          DrawImage (Canvas2D.width canvas) (height canvas)
                    (bitmap (context canvas)) 0 0 source_over]
    /\ (inRect 0 0 (Canvas2D.width canvas) (height canvas) px = true ->
        pixelAt out px
        = match pixelAt canvas px with
          | None => Some "#ffffff"
          | Some c => Some c
          end)
    /\ (inRect 0 0 (Canvas2D.width canvas) (height canvas) px = true ->
        pixelAt out px <> None)
    /\ (forall ref evs live ps e later,
          let s := run ref initialState evs in
          redrawCanvas s (Some live) = Some canvas ->
          paths s = ps ++ e :: later ->
          tool e = eraser ->
          (2 <= length (points e))%nat ->
          Forall (fun p => tool p = eraser) later ->
          (length (currentPath s) < 2)%nat \/ currentTool s = eraser ->
          inRect 0 0 (Canvas2D.width canvas) (height canvas) px = true ->
          strokeCovers (outline e) (width e) cap_round join_round px = true ->
          pixelAt canvas px = None /\ pixelAt out px = Some "#ffffff").
Proof.
  intro Href. unfold downloadImage. rewrite Href.
  eexists. split; [reflexivity|].
  cbn [withContext createCanvas Canvas2D.width height context].
  split; [reflexivity|]. split; [reflexivity|]. split; [reflexivity|].
  assert (Hpx : inRect 0 0 (Canvas2D.width canvas) (height canvas) px = true ->
                pixelAt
                  (withContext
                     (createCanvas (Canvas2D.width canvas) (height canvas))
                     (drawImage canvas 0 0
                        (fillRect 0 0 (Canvas2D.width canvas) (height canvas)
                           (set_fillStyle "#ffffff" freshContext)))) px
                = match pixelAt canvas px with
                  | None => Some "#ffffff"
                  | Some c => Some c
                  end)
    by (apply pixelAt_exported; reflexivity).
  split; [exact Hpx|]. split.
  - intros Hin. rewrite (Hpx Hin). destruct (pixelAt canvas px); discriminate.
  - intros ref evs live ps e later Hred Hps He Hlen Hlater Hcur Hin Hc.
    set (s := run ref initialState evs) in *.
    assert (Hlive : pixelAt canvas px = None).
    { destruct (redraw_reachable ref evs live px)
        as (canvas' & Hr' & Hw' & Hh' & _ & Hpix).
      fold s in Hr', Hpix. rewrite Hred in Hr'. injection Hr' as <-.
      rewrite Hpix, <- Hw', <- Hh', Hin. unfold displayList.
      replace (if drawable (currentDrawingPath s)
               then [strokeOp (currentDrawingPath s)] else [])
        with (map strokeOp (if drawable (currentDrawingPath s)
                            then [currentDrawingPath s] else []))
        by (destruct (drawable (currentDrawingPath s)); reflexivity).
      rewrite Hps, filter_app, map_app. cbn [filter].
      replace (drawable e) with true
        by (symmetry; apply drawable_spec; exact Hlen).
      cbn [map].
      set (inProgress := if drawable (currentDrawingPath s)
                         then [currentDrawingPath s] else []).
      replace ((map strokeOp (filter drawable ps)
                ++ strokeOp e :: map strokeOp (filter drawable later))
               ++ map strokeOp inProgress)
        with ((map strokeOp (filter drawable ps) ++ [strokeOp e])
              ++ map strokeOp (filter drawable later ++ inProgress))
        by (rewrite map_app, <- !app_assoc; reflexivity).
      subst inProgress.
      apply erasers_keep_transparent.
      - apply Forall_app. split.
        + eapply incl_Forall; [apply incl_filter | exact Hlater].
        + destruct (drawable (currentDrawingPath s)) eqn:Hd; [|constructor].
          constructor; [|constructor].
          destruct Hcur as [Hshort | Htool]; [|exact Htool].
          apply drawable_spec in Hd. cbn in Hd. lia.
      - rewrite renderOps_snoc. unfold strokeOp.
        rewrite paint_stroke_covered by exact Hc. rewrite He. reflexivity. }
    split; [exact Hlive|]. rewrite (Hpx Hin), Hlive. reflexivity.
Qed.

End ExportClaims.

(** * Capture *)

Lemma stopDrawing_commits s :
  isDrawing s = true ->
  currentPath s <> [] ->
  stopDrawing s
  = mkState false [] (paths s ++ [currentDrawingPath s])
            (undoStack s ++ [paths s]) [] (currentColor s) (brushSize s)
            (currentTool s).
Proof.
  intros Hd Hc. unfold stopDrawing. rewrite Hd.
  destruct (currentPath s) eqn:Ec; [congruence|].
  cbn. unfold currentDrawingPath. rewrite Ec. reflexivity.
Qed.

(** Moves and setting changes keep a capture going and leave the history
    alone. *)
Lemma midCapture_run ref mid : forall s,
  forallb midCapture mid = true ->
  isDrawing s = true ->
  currentPath s <> [] ->
  let s' := run ref s mid in
  isDrawing s' = true
  /\ currentPath s' <> []
  /\ paths s' = paths s
  /\ undoStack s' = undoStack s
  /\ redoStack s' = redoStack s.
Proof.
  induction mid as [|ev mid IH]; intros s Hmid Hd Hc; cbn.
  - repeat split; assumption.
  - cbn in Hmid. apply andb_true_iff in Hmid. destruct Hmid as [Hev Hmid].
    assert (Hs : isDrawing (step ref s ev) = true
                 /\ currentPath (step ref s ev) <> []
                 /\ paths (step ref s ev) = paths s
                 /\ undoStack (step ref s ev) = undoStack s
                 /\ redoStack (step ref s ev) = redoStack s).
    { destruct ev; try discriminate; cbn; try (repeat split; assumption).
      unfold draw. rewrite Hd. cbn. repeat split; try assumption.
      destruct (currentPath s); [congruence | discriminate]. }
    destruct Hs as (Hd' & Hc' & Hp' & Hu' & Hr').
    destruct (IH (step ref s ev) Hmid Hd' Hc') as (? & ? & ? & ? & ?).
    unfold run in *. repeat split; congruence.
Qed.

(** C3, as the code has it.  A pointer-up or pointer-leave that finds no
    capture active, or a capture without points, leaves the whole state
    unchanged.  A pointer-down followed at once by a pointer-up is not
    such a case: the capture holds the one point of the pointer-down and
    is committed as a stroke of one point, the current drawing pushed on
    the undo stack and the redo stack emptied; [drawPath] draws nothing
    for that stroke. *)
Theorem stopDrawing_discards_only_empty_capture (s s1 : State)
    (ref : option Canvas) (e : MouseEvent) (ctx : Context2D) :
  isDrawing s = false \/ currentPath s = [] ->
  let tap :=
    {| points := [getPointFromEvent ref e];
       color := match currentTool s1 with
                | eraser => "#000000"
                | pen => currentColor s1
                end;
       width := brushSize s1;
       tool := currentTool s1 |} in
  stopDrawing s = s
  /\ stopDrawing (startDrawing ref e s1)
     = mkState false [] (paths s1 ++ [tap]) (undoStack s1 ++ [paths s1]) []
               (currentColor s1) (brushSize s1) (currentTool s1)
  /\ drawPath ctx tap = ctx.
Proof.
  intros Hs tap. split; [|split].
  - unfold stopDrawing. destruct Hs as [Hd | Hc].
    + rewrite Hd. reflexivity.
    + rewrite Hc. cbn. rewrite orb_true_r. reflexivity.
  - reflexivity.
  - reflexivity.
Qed.

(** C4, as the code has it.  The pointer-down stores the first point and
    no tool setting.  Whatever moves and setting changes occur while the
    pointer is down, the pointer-up commits a stroke with the points
    collected and the colour, brush size and tool of the state at the
    pointer-up (black for the eraser). *)
Theorem committed_stroke_has_settings_at_pointer_up (ref : option Canvas)
    (e : MouseEvent) (s0 : State) (mid : list Event) :
  forallb midCapture mid = true ->
  let sDown := startDrawing ref e s0 in
  let sUp := run ref sDown mid in
  sDown = mkState true [getPointFromEvent ref e] (paths s0) (undoStack s0)
                  (redoStack s0) (currentColor s0) (brushSize s0)
                  (currentTool s0)
  /\ paths (stopDrawing sUp)
     = paths s0
       ++ [ {| points := currentPath sUp;
               color := match currentTool sUp with
                        | eraser => "#000000"
                        | pen => currentColor sUp
                        end;
               width := brushSize sUp;
               tool := currentTool sUp |} ].
Proof.
  intros Hmid sDown sUp. split; [reflexivity|].
  destruct (midCapture_run ref mid sDown Hmid) as (Hd & Hc & Hp & _);
    [reflexivity | discriminate |].
  fold sUp in Hd, Hc, Hp.
  rewrite (stopDrawing_commits sUp Hd Hc). cbn [paths]. rewrite Hp.
  reflexivity.
Qed.

(** C10. In any state a session reaches, every eraser stroke of the
    current drawing and of every snapshot on either stack has the colour
    [#000000].  The stroke a commit would add, which is also the stroke in
    progress that [redrawCanvas] draws, is black when the eraser is
    selected and has the selected colour when the pen is; with a pending
    capture of two points or more it is the last operation of the render,
    stroked in that colour. *)
Theorem eraser_strokes_are_black (ref : option Canvas) (evs : list Event)
    (canvas : Canvas) :
  let s := run ref initialState evs in
  historyAll eraserBlack s
  /\ color (currentDrawingPath s)
     = match currentTool s with
       | eraser => "#000000"
       | pen => currentColor s
       end
  /\ ((2 <= length (currentPath s))%nat ->
      exists canvas',
        redrawCanvas s (Some canvas) = Some canvas'
        /\ last (bitmap (context canvas')) (ClearRect 0 0 0 0)
           = Stroke (outline (currentDrawingPath s))
                    (match currentTool s with
                     | eraser => "#000000"
                     | pen => currentColor s
                     end)
                    (brushSize s) cap_round join_round
                    (match currentTool s with
                     | eraser => destination_out
                     | pen => source_over
                     end)).
Proof.
  intros s. split; [apply reachable_eraserBlack|]. split; [reflexivity|].
  intros Hlen.
  destruct (redraw_reachable_bitmap ref evs canvas) as (ctx' & Hr & Hbm).
  fold s in Hr, Hbm. exists (withContext canvas ctx'). split; [exact Hr|].
  cbn [withContext context]. rewrite Hbm. unfold displayList.
  replace (drawable (currentDrawingPath s)) with true
    by (symmetry; apply drawable_spec; exact Hlen).
  rewrite app_comm_cons, !app_assoc, last_last.
  unfold strokeOp, compositeOf, currentDrawingPath, strokeColor. cbn.
  destruct (currentTool s); reflexivity.
Qed.

(** * The claims at concrete inputs *)

Lemma drawPath_composite_mode_witness :
  (2 <= length (points strokeB))%nat
  /\ renderOps (R := stampRasterizer)
               (bitmap (drawPath freshContext strokeA)) (5, 5)
     = Some "#FF0000"
  /\ renderOps (R := stampRasterizer)
               (bitmap (drawPath (drawPath freshContext strokeA) strokeB))
               (5, 5)
     = None.
Proof.
  split; [cbn; lia|]. split; [reflexivity|].
  destruct (drawPath_composite_mode (R := stampRasterizer)
              freshContext strokeB strokeA (5, 5))
    as (_ & _ & _ & H); [cbn; lia|].
  apply H; reflexivity.
Defined.

Lemma history_round_trip_witness :
  forallb (fun ev => negb (isUndoRedo ev)) sessionThree = true
  /\ snapshotsRecorded mounted initialState sessionThree = 3%nat
  /\ paths (run mounted initialState sessionThree)
     = [ {| points := [mkPoint 0 0; mkPoint 10 10]; color := "#000000";
            width := 3; tool := eraser |} ]
  /\ paths (Nat.iter 3 undo (run mounted initialState sessionThree)) = []
  /\ Nat.iter 3 redo (Nat.iter 3 undo (run mounted initialState sessionThree))
     = run mounted initialState sessionThree.
Proof.
  split; [reflexivity|]. split; [reflexivity|]. split; [reflexivity|].
  destruct (history_round_trip mounted sessionThree) as (H1 & _ & H3);
    [reflexivity|].
  split; [exact H1 | exact H3].
Defined.

Lemma commit_after_undo_clears_redo_witness :
  isDrawing (run mounted afterOneUndo [MouseDown atOrigin; MouseMove atTen])
  = true
  /\ redoStack afterOneUndo <> []
  /\ redoStack
       (stopDrawing
          (run mounted afterOneUndo [MouseDown atOrigin; MouseMove atTen]))
     = []
  /\ redo
       (stopDrawing
          (run mounted afterOneUndo [MouseDown atOrigin; MouseMove atTen]))
     = stopDrawing
         (run mounted afterOneUndo [MouseDown atOrigin; MouseMove atTen]).
Proof.
  split; [reflexivity|]. split; [discriminate|].
  destruct (commit_after_undo_clears_redo mounted
              (run mounted initialState
                   [MouseDown atOrigin; MouseMove atTen; MouseUp])
              [MouseDown atOrigin; MouseMove atTen])
    as (_ & H2 & H3); [reflexivity | cbn; lia |].
  split; [exact H2 | exact H3].
Defined.

Lemma redrawCanvas_pipeline_witness :
  exists canvas',
    redrawCanvas (run mounted initialState [MouseDown atOrigin; MouseMove atTen])
                 mounted
    = Some canvas'
    /\ pixelAt (R := stampRasterizer) canvas' (2, 2) = Some "#000000".
Proof.
  destruct (redrawCanvas_pipeline (R := stampRasterizer) mounted
              [MouseDown atOrigin; MouseMove atTen] mountedCanvas (2, 2))
    as (canvas' & Hr & _ & _ & _ & _ & Htop).
  exists canvas'. split; [exact Hr|].
  apply Htop; [cbn; lia | reflexivity | reflexivity].
Defined.

Lemma downloadImage_flattens_on_white_witness :
  canvasRef liveWorld = Some liveCanvas
  /\ paths (state liveWorld)
     = [ {| points := [mkPoint 0 0; mkPoint 10 10]; color := "#FF0000";
            width := 3; tool := pen |};
         {| points := [mkPoint 0 0; mkPoint 10 10]; color := "#000000";
            width := 3; tool := eraser |} ]
  /\ strokeCovers (Rasterizer := stampRasterizer)
                  [[(0, 0); (10, 10)]] 3 cap_round join_round (2, 2) = true
  /\ exists out,
       downloadImage liveWorld
       = {| state := state liveWorld;
            canvasRef := Some liveCanvas;
            downloads := [ {| download := "sketch.png"; image := out |} ] |}
       /\ pixelAt (R := stampRasterizer) liveCanvas (2, 2) = None
       /\ pixelAt (R := stampRasterizer) out (2, 2) = Some "#ffffff".
Proof.
  split; [reflexivity|]. split; [reflexivity|]. split; [reflexivity|].
  destruct (downloadImage_flattens_on_white (R := stampRasterizer)
              liveWorld liveCanvas (2, 2) eq_refl)
    as (out & Hd & _ & _ & _ & _ & _ & Herased).
  exists out. split; [exact Hd|].
  apply (Herased mounted sessionPenEraser mountedCanvas
           [ {| points := [mkPoint 0 0; mkPoint 10 10]; color := "#FF0000";
                width := 3; tool := pen |} ]
           {| points := [mkPoint 0 0; mkPoint 10 10]; color := "#000000";
              width := 3; tool := eraser |}
           []);
    try reflexivity.
  - constructor.
  - left. cbn. lia.
Defined.

(** C9 as the spec states it fails: the drawing is a pen stroke and an
    eraser stroke over it, so pixel (2, 2) is erased in the composed
    drawing; the pen is held down over it with two points pending, the
    live canvas shows that stroke, and the exported file has the pen's
    colour there, not white. *)
Lemma export_shows_stroke_in_progress_counterexample :
  canvasRef retouchWorld = redrawCanvas (state retouchWorld) mounted
  /\ paths (state retouchWorld)
     = [ {| points := [mkPoint 0 0; mkPoint 10 10]; color := "#FF0000";
            width := 3; tool := pen |};
         {| points := [mkPoint 0 0; mkPoint 10 10]; color := "#000000";
            width := 3; tool := eraser |} ]
  /\ renderOps (R := stampRasterizer)
               (map strokeOp (filter drawable (paths (state retouchWorld))))
               (2, 2)
     = None
  /\ map (fun d => pixelAt (R := stampRasterizer) (image d) (2, 2))
         (downloads (downloadImage retouchWorld))
     = [Some "#FF0000"]
  /\ ~ (forall d, In d (downloads (downloadImage retouchWorld)) ->
        pixelAt (R := stampRasterizer) (image d) (2, 2) = Some "#ffffff").
Proof.
  repeat (split; [reflexivity|]).
  intro H.
  destruct (downloads (downloadImage retouchWorld)) as [|d ds] eqn:E;
    [discriminate E|].
  specialize (H d (or_introl eq_refl)).
  injection E as <- _. discriminate H.
Qed.

Lemma stopDrawing_discards_only_empty_capture_witness :
  (isDrawing initialState = false \/ currentPath initialState = [])
  /\ stopDrawing initialState = initialState
  /\ stopDrawing (startDrawing mounted atOrigin initialState)
     = mkState false []
               [ {| points := [mkPoint 0 0]; color := "#000000";
                    width := 3; tool := pen |} ]
               [[]] [] "#000000" 3 pen.
Proof.
  split; [left; reflexivity|].
  destruct (stopDrawing_discards_only_empty_capture initialState initialState
              mounted atOrigin freshContext (or_introl eq_refl))
    as (H1 & H2 & _).
  split; [exact H1 | exact H2].
Defined.

Lemma committed_stroke_has_settings_at_pointer_up_witness :
  forallb midCapture changesMidStroke = true
  /\ paths (stopDrawing
              (run mounted (startDrawing mounted atOrigin initialState)
                   changesMidStroke))
     = [ {| points := [mkPoint 0 0; mkPoint 10 10]; color := "#FF0000";
            width := 4; tool := pen |} ].
Proof.
  split; [reflexivity|].
  destruct (committed_stroke_has_settings_at_pointer_up mounted atOrigin
              initialState changesMidStroke eq_refl) as (_ & H).
  exact H.
Defined.

Lemma eraser_strokes_are_black_witness :
  exists canvas',
    redrawCanvas
      (run mounted initialState
           [SelectColor "#FF0000"; SelectTool eraser;
            MouseDown atOrigin; MouseMove atTen])
      mounted
    = Some canvas'
    /\ last (bitmap (context canvas')) (ClearRect 0 0 0 0)
       = Stroke [[(0, 0); (10, 10)]] "#000000" 3 cap_round join_round
                destination_out.
Proof.
  destruct (eraser_strokes_are_black mounted
              [SelectColor "#FF0000"; SelectTool eraser;
               MouseDown atOrigin; MouseMove atTen] mountedCanvas)
    as (_ & _ & H).
  destruct H as (canvas' & Hr & Hl); [cbn; lia|].
  exists canvas'. split; [exact Hr | exact Hl].
Defined.

(** C3 as the spec states it fails: after a stroke was drawn and undone,
    a pointer-down followed at once by a pointer-up changes the current
    drawing, the undo stack and the redo stack. *)
Lemma single_point_capture_counterexample :
  paths afterOneUndo = []
  /\ undoStack afterOneUndo = []
  /\ redoStack afterOneUndo
     = [[ {| points := [mkPoint 0 0; mkPoint 10 10]; color := "#000000";
             width := 3; tool := pen |} ]]
  /\ paths (run mounted afterOneUndo [MouseDown atOrigin; MouseUp])
     = [ {| points := [mkPoint 0 0]; color := "#000000";
            width := 3; tool := pen |} ]
  /\ undoStack (run mounted afterOneUndo [MouseDown atOrigin; MouseUp]) = [[]]
  /\ redoStack (run mounted afterOneUndo [MouseDown atOrigin; MouseUp]) = []
  /\ ~ (paths (run mounted afterOneUndo [MouseDown atOrigin; MouseUp])
        = paths afterOneUndo
        \/ undoStack (run mounted afterOneUndo [MouseDown atOrigin; MouseUp])
           = undoStack afterOneUndo
        \/ redoStack (run mounted afterOneUndo [MouseDown atOrigin; MouseUp])
           = redoStack afterOneUndo).
Proof.
  repeat (split; [reflexivity|]).
  intros [H | [H | H]]; discriminate H.
Qed.

(** C4 as the spec states it fails: the colour is changed from black to
    red and the brush size from 3 to 4 while the pointer is down, and the
    committed stroke is red and 4 wide, not black and 3 wide as the
    settings were at the pointer-down. *)
Lemma settings_at_pointer_down_counterexample :
  currentColor (startDrawing mounted atOrigin initialState) = "#000000"
  /\ brushSize (startDrawing mounted atOrigin initialState) = 3
  /\ currentTool (startDrawing mounted atOrigin initialState) = pen
  /\ paths (stopDrawing
              (run mounted (startDrawing mounted atOrigin initialState)
                   changesMidStroke))
     = [ {| points := [mkPoint 0 0; mkPoint 10 10]; color := "#FF0000";
            width := 4; tool := pen |} ]
  /\ ~ (forall p,
          In p (paths (stopDrawing
                         (run mounted
                              (startDrawing mounted atOrigin initialState)
                              changesMidStroke))) ->
          color p = currentColor (startDrawing mounted atOrigin initialState)
          /\ width p = brushSize (startDrawing mounted atOrigin initialState)).
Proof.
  repeat (split; [reflexivity|]).
  intro H.
  destruct (H {| points := [mkPoint 0 0; mkPoint 10 10]; color := "#FF0000";
                 width := 4; tool := pen |}) as [Hc _];
    [left; reflexivity | discriminate Hc].
Qed.

(** * Further properties of the handlers *)

(** X1. Whatever the brush size and the step, [adjustBrushSize] leaves a
    brush size within 1..50 and changes nothing else. *)
Theorem adjustBrushSize_in_range (delta : Z) (d : bool) (cp : list Point)
    (ps : list DrawingPath) (us rs : list (list DrawingPath)) (c : string)
    (b : Z) (t : Tool) :
  exists b',
    adjustBrushSize delta (mkState d cp ps us rs c b t)
    = mkState d cp ps us rs c b' t
    /\ 1 <= b' <= 50
    /\ (b' = b + delta \/ b' = 1 \/ b' = 50).
Proof.
  exists (Z.max 1 (Z.min 50 (b + delta))). split; [reflexivity|]. lia.
Qed.

(** X2. From a brush size within 1..50, a plus followed by a minus gives
    the size back, except at 50, where the plus saturates and the minus
    then leaves 49; a minus followed by a plus gives the size back except
    at 1, where it leaves 2. *)
Theorem adjustBrushSize_plus_minus (s : State) :
  1 <= brushSize s <= 50 ->
  brushSize (adjustBrushSize (-1) (adjustBrushSize 1 s))
  = (if brushSize s =? 50 then 49 else brushSize s)
  /\ brushSize (adjustBrushSize 1 (adjustBrushSize (-1) s))
     = (if brushSize s =? 1 then 2 else brushSize s).
Proof.
  intro Hb. cbn.
  destruct (Z.eqb_spec (brushSize s) 50), (Z.eqb_spec (brushSize s) 1); lia.
Qed.

Lemma adjustBrushSize_plus_minus_witness :
  brushSize (adjustBrushSize (-1) (adjustBrushSize 1 initialState)) = 3
  /\ brushSize (adjustBrushSize 1 (adjustBrushSize (-1) initialState)) = 3.
Proof.
  apply (adjustBrushSize_plus_minus initialState). cbn. lia.
Defined.


Lemma handle_rendered ref s ev : handle ref s ev s = step ref s ev.
Proof. destruct ev; reflexivity. Qed.

(** With a render after every event the component goes through the
    states of [run]. *)
Lemma runTicks_rendered ref evs : forall s,
  runTicks ref (mkComponent s s) (flat_map (fun ev => [Fire ev; Render]) evs)
  = mkComponent (run ref s evs) (run ref s evs).
Proof.
  induction evs as [|ev evs IH]; intro s; [reflexivity|].
  cbn [flat_map app runTicks fold_left tick rendered pending].
  rewrite handle_rendered. apply IH.
Qed.

Lemma runTicks_moves_and_renders ref ts : forall k,
  forallb moveOrRender ts = true ->
  isDrawing (rendered k) = true ->
  isDrawing (pending k) = true ->
  pending (runTicks ref k ts)
  = setCurrentPath
      (fun prev => prev ++ map (getPointFromEvent ref) (samplesOf ts))
      (pending k)
  /\ isDrawing (rendered (runTicks ref k ts)) = true.
Proof.
  induction ts as [|t ts IH]; intros k Hts Hr Hp.
  - cbn. split; [|exact Hr]. destruct (pending k).
    unfold setCurrentPath; cbn. now rewrite app_nil_r.
  - cbn in Hts. apply andb_true_iff in Hts. destruct Hts as [Ht Hts].
    destruct t as [ev|]; [destruct ev; try discriminate|].
    + cbn [runTicks fold_left].
      destruct (IH (tick ref k (Fire (MouseMove e))) Hts) as [E1 E2].
      * exact Hr.
      * cbn. unfold drawIn. rewrite Hr. cbn. exact Hp.
      * unfold runTicks in *. rewrite E1. split; [|exact E2].
        cbn. unfold drawIn. rewrite Hr. cbn.
        destruct (pending k). unfold setCurrentPath; cbn.
        now rewrite <- app_assoc.
    + cbn [runTicks fold_left].
      destruct (IH (tick ref k Render) Hts Hp Hp) as [E1 E2].
      unfold runTicks in *. rewrite E1. split; [reflexivity | exact E2].
Qed.

Lemma runTicks_moves ref es : forall k,
  isDrawing (rendered k) = true ->
  runTicks ref k (map (fun e => Fire (MouseMove e)) es)
  = mkComponent (rendered k)
      (setCurrentPath (fun prev => prev ++ map (getPointFromEvent ref) es)
                      (pending k)).
Proof.
  induction es as [|e es IH]; intros k Hr.
  - cbn. destruct k as [r q]. cbn. f_equal. destruct q.
    unfold setCurrentPath; cbn. now rewrite app_nil_r.
  - cbn [map runTicks fold_left].
    change (fold_left (tick ref) (map (fun e => Fire (MouseMove e)) es)
                      (tick ref k (Fire (MouseMove e))))
      with (runTicks ref (tick ref k (Fire (MouseMove e)))
                     (map (fun e => Fire (MouseMove e)) es)).
    rewrite IH by exact Hr.
    cbn. unfold drawIn. rewrite Hr. cbn. f_equal.
    destruct (pending k). unfold setCurrentPath; cbn.
    now rewrite <- app_assoc.
Qed.

(** X3. The stroke a pointer-up commits has the points of the last
    render, not those collected since.  In a gesture of a pointer-down
    and a render, then moves and renders in any order, a render, moves
    without a render and the pointer-up, the committed stroke has the
    positions of the pointer-down and of every move before the last
    render, in order; the moves after that render are dropped.  With no
    move after the last render none is dropped.  The stroke has the tool
    settings of the state, the drawing found is pushed on the undo stack,
    the redo stack is emptied and the capture ends. *)
Theorem gesture_commits_rendered_samples (ref : option Canvas)
    (e : MouseEvent) (ts : list Tick) (unrendered : list MouseEvent)
    (s : State) :
  forallb moveOrRender ts = true ->
  runTicks ref (mkComponent s s)
           ([Fire (MouseDown e); Render] ++ ts ++ [Render]
            ++ map (fun e' => Fire (MouseMove e')) unrendered
            ++ [Fire MouseUp; Render])
  = (let final :=
       mkState false []
               (paths s
                ++ [ {| points :=
                          map (getPointFromEvent ref) (e :: samplesOf ts);
                        color := match currentTool s with
                                 | eraser => "#000000"
                                 | pen => currentColor s
                                 end;
                        width := brushSize s;
                        tool := currentTool s |} ])
               (undoStack s ++ [paths s]) [] (currentColor s) (brushSize s)
               (currentTool s) in
     mkComponent final final).
Proof.
  intro Hts. unfold runTicks.
  cbn [app fold_left tick rendered pending handle].
  rewrite fold_left_app.
  change (fold_left (tick ref) ts ?k) with (runTicks ref k ts).
  destruct (runTicks_moves_and_renders ref ts
              (mkComponent (startDrawing ref e s) (startDrawing ref e s))
              Hts eq_refl eq_refl) as [Ep _].
  cbn [fold_left tick rendered pending].
  rewrite fold_left_app, Ep. cbn [pending].
  change (fold_left (tick ref) (map (fun e' => Fire (MouseMove e')) unrendered)
                    ?k)
    with (runTicks ref k (map (fun e' => Fire (MouseMove e')) unrendered)).
  rewrite runTicks_moves by reflexivity.
  cbn [fold_left tick rendered pending handle].
  destruct s; reflexivity.
Qed.

Lemma gesture_commits_rendered_samples_witness :
  forallb moveOrRender [Fire (MouseMove atTen)] = true
  /\ paths
       (rendered
          (runTicks mounted (mkComponent initialState initialState)
             [Fire (MouseDown atOrigin); Render;
              Fire (MouseMove atTen); Render;
              Fire (MouseMove atOrigin);
              Fire MouseUp; Render]))
     = [ {| points := [mkPoint 0 0; mkPoint 10 10]; color := "#000000";
            width := 3; tool := pen |} ].
Proof.
  split; [reflexivity|].
  exact (f_equal (fun k => paths (rendered k))
           (gesture_commits_rendered_samples mounted atOrigin
              [Fire (MouseMove atTen)] [atOrigin] initialState eq_refl)).
Defined.

(** X4. While no capture is active, moves, pointer-ups and pointer-leaves
    are ignored: the state after any number of them is the state before. *)
Theorem idle_ignores_pointer_events (ref : option Canvas) (evs : list Event)
    (s : State) :
  isDrawing s = false ->
  forallb pointerOnly evs = true ->
  run ref s evs = s.
Proof.
  intros Hd. induction evs as [|ev evs IH]; intro Hp; [reflexivity|].
  cbn in Hp. apply andb_true_iff in Hp. destruct Hp as [Hev Hp].
  assert (E : step ref s ev = s).
  { destruct ev; try discriminate; cbn.
    - unfold draw. rewrite Hd. reflexivity.
    - unfold stopDrawing. rewrite Hd. reflexivity.
    - unfold stopDrawing. rewrite Hd. reflexivity. }
  cbn. rewrite E. apply IH, Hp.
Qed.

Lemma idle_ignores_pointer_events_witness :
  run mounted afterOneUndo [MouseMove atTen; MouseUp; MouseLeave; MouseMove atOrigin]
  = afterOneUndo.
Proof.
  apply idle_ignores_pointer_events; reflexivity.
Defined.

(** X5. Ending a capture twice is ending it once: the pointer-leave that
    follows a pointer-up (or any second end) changes nothing, so a stroke
    is committed once. *)
Theorem stopDrawing_idempotent (s : State) :
  stopDrawing (stopDrawing s) = stopDrawing s.
Proof.
  unfold stopDrawing at 2 3.
  destruct (negb (isDrawing s) || (length (currentPath s) =? 0)%nat) eqn:G.
  - unfold stopDrawing. rewrite G. reflexivity.
  - reflexivity.
Qed.



(** X7. A clear while the pointer is down drops the points collected so
    far and keeps the capture active, and a pointer-up right after it
    commits nothing: it finds the capture without points and leaves the
    state as the clear left it, the snapshot of the clear on the undo
    stack and the drawing empty. *)
Theorem clear_during_capture (s : State) :
  isDrawing s = true ->
  isDrawing (clearCanvas s) = true
  /\ currentPath (clearCanvas s) = []
  /\ stopDrawing (clearCanvas s) = clearCanvas s
  /\ paths (stopDrawing (clearCanvas s)) = []
  /\ undoStack (stopDrawing (clearCanvas s)) = undoStack s ++ [paths s].
Proof.
  intro Hd.
  assert (E : stopDrawing (clearCanvas s) = clearCanvas s)
    by (unfold stopDrawing; cbn; rewrite orb_true_r; reflexivity).
  rewrite E. repeat split. exact Hd.
Qed.

Lemma clear_during_capture_witness :
  isDrawing (run mounted afterOneUndo previewSession) = true
  /\ currentPath (run mounted afterOneUndo previewSession)
     = [mkPoint 0 0; mkPoint 10 10]
  /\ currentPath (clearCanvas (run mounted afterOneUndo previewSession)) = []
  /\ stopDrawing (clearCanvas (run mounted afterOneUndo previewSession))
     = clearCanvas (run mounted afterOneUndo previewSession).
Proof.
  split; [reflexivity|]. split; [reflexivity|].
  destruct (clear_during_capture (run mounted afterOneUndo previewSession)
              eq_refl)
    as (_ & H2 & H3 & _).
  split; [exact H2 | exact H3].
Defined.

(** * Further properties of the history *)

(** X8. Where each has something to act on, [redo] takes back an [undo]
    and [undo] takes back a [redo]: the state is the one before the
    pair, stacks included. *)
Theorem undo_redo_inverse d cp ps us top rs c b t :
  redo (undo (mkState d cp ps (us ++ [top]) rs c b t))
  = mkState d cp ps (us ++ [top]) rs c b t
  /\ undo (redo (mkState d cp ps us (rs ++ [top]) c b t))
     = mkState d cp ps us (rs ++ [top]) c b t.
Proof.
  rewrite undo_snoc, redo_snoc, redo_snoc, undo_snoc. split; reflexivity.
Qed.

Lemma timeline_step ref s ev :
  isUndoRedo ev = true ->
  timeline (step ref s ev) = timeline s
  /\ isDrawing (step ref s ev) = isDrawing s
  /\ currentPath (step ref s ev) = currentPath s
  /\ currentColor (step ref s ev) = currentColor s
  /\ brushSize (step ref s ev) = brushSize s
  /\ currentTool (step ref s ev) = currentTool s.
Proof.
  destruct s as [d cp ps us rs c b t].
  destruct ev; try discriminate; intros _; cbn [step].
  - destruct us as [|u us _] using rev_ind; [repeat split|].
    rewrite undo_snoc. unfold timeline; cbn.
    rewrite rev_app_distr, <- app_assoc. repeat split.
  - destruct rs as [|r rs _] using rev_ind; [repeat split|].
    rewrite redo_snoc. unfold timeline; cbn.
    rewrite rev_app_distr, <- app_assoc. repeat split.
Qed.

(** X9. Undo and redo move along a fixed line of drawings: after any
    sequence of undos and redos the undo stack, the current drawing and
    the reversed redo stack, laid end to end, are what they were, so no
    drawing is lost, duplicated or reordered; the capture and the tool
    settings are untouched. *)
Theorem undo_redo_keep_timeline (ref : option Canvas) (evs : list Event)
    (s : State) :
  forallb isUndoRedo evs = true ->
  timeline (run ref s evs) = timeline s
  /\ (length (undoStack (run ref s evs)) + length (redoStack (run ref s evs))
      = length (undoStack s) + length (redoStack s))%nat
  /\ isDrawing (run ref s evs) = isDrawing s
  /\ currentPath (run ref s evs) = currentPath s
  /\ currentColor (run ref s evs) = currentColor s
  /\ brushSize (run ref s evs) = brushSize s
  /\ currentTool (run ref s evs) = currentTool s.
Proof.
  intro Hevs.
  assert (H : timeline (run ref s evs) = timeline s
              /\ isDrawing (run ref s evs) = isDrawing s
              /\ currentPath (run ref s evs) = currentPath s
              /\ currentColor (run ref s evs) = currentColor s
              /\ brushSize (run ref s evs) = brushSize s
              /\ currentTool (run ref s evs) = currentTool s).
  { revert s. induction evs as [|ev evs IH]; intro s; [repeat split|].
    cbn in Hevs. apply andb_true_iff in Hevs. destruct Hevs as [Hev Hevs].
    destruct (timeline_step ref s ev Hev) as (E1 & E2 & E3 & E4 & E5 & E6).
    destruct (IH Hevs (step ref s ev)) as (F1 & F2 & F3 & F4 & F5 & F6).
    cbn. unfold run in *. repeat split; congruence. }
  destruct H as (Ht & H'). split; [exact Ht|]. split; [|exact H'].
  apply (f_equal (@length _)) in Ht. unfold timeline in Ht.
  rewrite !length_app in Ht. cbn [length] in Ht. rewrite !length_rev in Ht.
  lia.
Qed.

Lemma undo_redo_keep_timeline_witness :
  timeline (run mounted (run mounted initialState sessionThree)
                [ClickUndo; ClickUndo; ClickRedo; ClickUndo; ClickUndo;
                 ClickUndo; ClickRedo])
  = timeline (run mounted initialState sessionThree).
Proof.
  apply undo_redo_keep_timeline. reflexivity.
Defined.

(** X10. An [undo] right after a commit takes the stroke back: the
    drawing and the undo stack are those before the commit, and the redo
    stack holds exactly the drawing with the new stroke, whatever it held
    before.  The capture stays ended. *)
Theorem undo_takes_back_commit (s : State) :
  isDrawing s = true ->
  currentPath s <> [] ->
  undo (stopDrawing s)
  = mkState false [] (paths s) (undoStack s)
            [ paths s
              ++ [ {| points := currentPath s;
                      color := match currentTool s with
                               | eraser => "#000000"
                               | pen => currentColor s
                               end;
                      width := brushSize s;
                      tool := currentTool s |} ] ]
            (currentColor s) (brushSize s) (currentTool s).
Proof.
  intros Hd Hc. rewrite (stopDrawing_commits s Hd Hc), undo_snoc. reflexivity.
Qed.

Lemma undo_takes_back_commit_witness :
  undo (stopDrawing (run mounted afterOneUndo previewSession))
  = mkState false [] [] []
            [[ {| points := [mkPoint 0 0; mkPoint 10 10]; color := "#000000";
                  width := 3; tool := pen |} ]]
            "#000000" 3 pen.
Proof.
  rewrite undo_takes_back_commit; [reflexivity | reflexivity | discriminate].
Defined.

Lemma step_keeps_redo_empty ref s ev :
  isUndoRedo ev = false ->
  redoStack s = [] ->
  redoStack (step ref s ev) = [].
Proof.
  intros Hev Hr. destruct ev; try discriminate; cbn [step]; try exact Hr.
  - unfold draw. destruct (isDrawing s); exact Hr.
  - unfold stopDrawing.
    destruct (negb (isDrawing s) || (length (currentPath s) =? 0)%nat);
      [exact Hr | reflexivity].
  - unfold stopDrawing.
    destruct (negb (isDrawing s) || (length (currentPath s) =? 0)%nat);
      [exact Hr | reflexivity].
  - reflexivity.
Qed.

(** X11. In a session from the initial state without undo or redo, the
    redo stack stays empty, so a redo does nothing, and the depth of the
    undo stack is the number of commits and clears made. *)
Theorem session_without_undo (ref : option Canvas) (evs : list Event) :
  forallb (fun ev => negb (isUndoRedo ev)) evs = true ->
  redoStack (run ref initialState evs) = []
  /\ redo (run ref initialState evs) = run ref initialState evs
  /\ length (undoStack (run ref initialState evs))
     = snapshotsRecorded ref initialState evs.
Proof.
  intro Hevs.
  assert (Hr : forall s, redoStack s = [] -> redoStack (run ref s evs) = []).
  { clear - Hevs. induction evs as [|ev evs IH]; intros s Hs; [exact Hs|].
    cbn in Hevs. apply andb_true_iff in Hevs. destruct Hevs as [Hev Hevs].
    apply negb_true_iff in Hev. cbn.
    apply (IH Hevs), step_keeps_redo_empty; assumption. }
  specialize (Hr initialState eq_refl).
  split; [exact Hr|]. split; [apply redo_empty, Hr|].
  destruct (run_records ref evs initialState Hevs) as [Hl _]. exact Hl.
Qed.

Lemma session_without_undo_witness :
  redoStack (run mounted initialState sessionThree) = []
  /\ redo (run mounted initialState sessionThree)
     = run mounted initialState sessionThree
  /\ length (undoStack (run mounted initialState sessionThree))
     = snapshotsRecorded mounted initialState sessionThree.
Proof.
  apply session_without_undo. reflexivity.
Defined.

Lemma step_historyAll_commit ref (P : DrawingPath -> Prop) s ev :
  (isDrawing s = true -> currentPath s <> [] -> P (currentDrawingPath s)) ->
  historyAll P s ->
  historyAll P (step ref s ev).
Proof.
  intros Hnew Hall.
  assert (Hstop : historyAll P (stopDrawing s)).
  { destruct (negb (isDrawing s) || (length (currentPath s) =? 0)%nat) eqn:G.
    - unfold stopDrawing. rewrite G. exact Hall.
    - apply orb_false_iff in G. destruct G as [G1 G2].
      apply negb_false_iff in G1.
      assert (Hc : currentPath s <> [])
        by (intro E; rewrite E in G2; discriminate).
      destruct Hall as (Hp & Hu & Hr).
      rewrite (stopDrawing_commits s G1 Hc).
      repeat split; cbn; [| |constructor];
        apply Forall_snoc; auto. }
  destruct ev; try exact Hstop; cbn [step].
  - exact Hall.
  - unfold draw. destruct (isDrawing s); exact Hall.
  - exact Hall.
  - exact Hall.
  - exact Hall.
  - exact Hall.
  - destruct Hall as (Hp & Hu & Hr). unfold undo.
    destruct (length (undoStack s) =? 0)%nat; [repeat split; assumption|].
    repeat split; cbn;
      [apply Forall_last; [assumption | constructor]
      | apply Forall_removelast; assumption
      | apply Forall_snoc; assumption].
  - destruct Hall as (Hp & Hu & Hr). unfold redo.
    destruct (length (redoStack s) =? 0)%nat; [repeat split; assumption|].
    repeat split; cbn;
      [apply Forall_last; [assumption | constructor]
      | apply Forall_snoc; assumption
      | apply Forall_removelast; assumption].
  - destruct Hall as (Hp & Hu & Hr).
    repeat split; cbn; [constructor | apply Forall_snoc; assumption | constructor].
Qed.

(** X12. In any state a session reaches the brush size is within 1..50,
    and every stroke of the current drawing and of every snapshot on
    either stack has a width within 1..50 and at least one point. *)
Theorem history_strokes_well_formed (ref : option Canvas) (evs : list Event) :
  1 <= brushSize (run ref initialState evs) <= 50
  /\ historyAll wellFormedStroke (run ref initialState evs).
Proof.
  apply (run_invariant ref
           (fun s => 1 <= brushSize s <= 50 /\ historyAll wellFormedStroke s)).
  - intros s ev [Hb Hh]. split.
    + apply step_brushSize, Hb.
    + apply step_historyAll_commit; [|exact Hh].
      intros _ Hc. split; [exact Hb | exact Hc].
  - split; [cbn; lia | repeat split; constructor].
Qed.

(** * Further properties of the rendering *)

Section RenderProperties.
Context {R : Rasterizer}.

(** X15. In any state a session reaches, the pixels a render leaves depend
    on the state and the size of the canvas only: two canvases of one
    size show the same pixels after it, whatever they showed before, and
    rendering again changes no pixel. *)
Theorem render_depends_on_state_only (ref : option Canvas) (evs : list Event)
    (c1 c2 : Canvas) (px : Z * Z) :
  Canvas2D.width c1 = Canvas2D.width c2 ->
  height c1 = height c2 ->
  exists c1' c2' c1'',
    redrawCanvas (run ref initialState evs) (Some c1) = Some c1'
    /\ redrawCanvas (run ref initialState evs) (Some c2) = Some c2'
    /\ redrawCanvas (run ref initialState evs) (Some c1') = Some c1''
    /\ pixelAt c1' px = pixelAt c2' px
    /\ pixelAt c1'' px = pixelAt c1' px.
Proof.
  intros Hw Hh.
  destruct (redraw_reachable ref evs c1 px) as (c1' & H1 & W1 & H1' & _ & P1).
  destruct (redraw_reachable ref evs c2 px) as (c2' & H2 & _ & _ & _ & P2).
  destruct (redraw_reachable ref evs c1' px) as (c1'' & H3 & _ & _ & _ & P3).
  exists c1', c2', c1''. repeat split; try assumption.
  - rewrite P1, P2, Hw, Hh. reflexivity.
  - rewrite P3, P1, W1, H1'. reflexivity.
Qed.

(** X16. The exported file shows the live canvas as it is: when the
    pointer is down with the pen and two points or more are pending, a
    pixel the stroke in progress covers has the selected colour in the
    file, though the stroke is not committed. *)
Theorem downloadImage_includes_stroke_in_progress (ref : option Canvas)
    (evs : list Event) (w : World) (live canvas : Canvas) (px : Z * Z) :
  redrawCanvas (run ref initialState evs) (Some live) = Some canvas ->
  canvasRef w = Some canvas ->
  (2 <= length (currentPath (run ref initialState evs)))%nat ->
  currentTool (run ref initialState evs) = pen ->
  inRect 0 0 (Canvas2D.width canvas) (height canvas) px = true ->
  strokeCovers (outline (currentDrawingPath (run ref initialState evs)))
               (brushSize (run ref initialState evs))
               cap_round join_round px = true ->
  exists out,
    downloadImage w
    = {| state := state w;
         canvasRef := Some canvas;
         downloads := downloads w
                      ++ [ {| download := "sketch.png"; image := out |} ] |}
    /\ pixelAt out px = Some (currentColor (run ref initialState evs)).
Proof.
  intros Hred Href Hlen Hpen Hin Hc.
  set (s := run ref initialState evs) in *.
  assert (Hlive : pixelAt canvas px = Some (currentColor s)).
  { destruct (redraw_reachable ref evs live px)
      as (canvas' & Hr' & Hw' & Hh' & _ & Hpix).
    fold s in Hr', Hpix. rewrite Hred in Hr'. injection Hr' as <-.
    rewrite Hpix, <- Hw', <- Hh', Hin. unfold displayList.
    replace (drawable (currentDrawingPath s)) with true
      by (symmetry; apply drawable_spec; exact Hlen).
    rewrite renderOps_snoc. unfold strokeOp.
    rewrite paint_stroke_covered by exact Hc.
    unfold currentDrawingPath, strokeColor, compositeOf; cbn.
    rewrite Hpen. reflexivity. }
  unfold downloadImage. rewrite Href.
  eexists. split; [reflexivity|].
  rewrite pixelAt_exported by (reflexivity || exact Hin).
  rewrite Hlive. reflexivity.
Qed.

End RenderProperties.

Lemma render_depends_on_state_only_witness :
  exists c1' c2' c1'',
    redrawCanvas (run mounted initialState sessionPenEraser)
                 (Some mountedCanvas) = Some c1'
    /\ redrawCanvas (run mounted initialState sessionPenEraser)
                    (Some previewCanvas) = Some c2'
    /\ redrawCanvas (run mounted initialState sessionPenEraser) (Some c1')
       = Some c1''
    /\ pixelAt (R := stampRasterizer) c1' (2, 2)
       = pixelAt (R := stampRasterizer) c2' (2, 2)
    /\ pixelAt (R := stampRasterizer) c1'' (2, 2)
       = pixelAt (R := stampRasterizer) c1' (2, 2).
Proof.
  apply (render_depends_on_state_only (R := stampRasterizer) mounted
           sessionPenEraser mountedCanvas previewCanvas (2, 2));
    reflexivity.
Defined.

Lemma downloadImage_includes_stroke_in_progress_witness :
  exists out,
    downloadImage previewWorld
    = {| state := state previewWorld;
         canvasRef := Some previewCanvas;
         downloads := [ {| download := "sketch.png"; image := out |} ] |}
    /\ pixelAt (R := stampRasterizer) out (2, 2) = Some "#000000".
Proof.
  apply (downloadImage_includes_stroke_in_progress (R := stampRasterizer)
           mounted previewSession previewWorld mountedCanvas previewCanvas
           (2, 2));
    reflexivity.
Defined.

